(** * Poster morphing (mangaki/management/commands/morphingpm.py)

    A shallow embedding of the module-level corpus loader and of the
    functions [distance] and [morphing], and the properties of the
    specification checked against them.

    Numbers.  The source computes on numpy float64 values.  The embedding
    is written once, over an interface [Arith] of the arithmetic operations
    the source uses, and is read at two instances:
    - [Arith_float]: IEEE 754 binary64 (Rocq's primitive floats), which is
      what the program runs on; every definition computes there, and the
      properties that depend on the arithmetic are proved there, from the
      specification of the format ([SpecFloat]);
    - [Arith_R]: exact real arithmetic, the idealisation in which the
      specification reasons about projections and slot indices; it is
      used only to tell which failures of the program are due to
      rounding.
    Properties stated for every instance of [Arith] hold of both.

    Integers are Python integers ([Z]); sequences are lists; a Python
    exception is a value of [exn] returned through the [result] monad.

    Modelling choices.
    - Subscripts follow Python and numpy: a negative subscript counts from
      the end; anything else out of range raises IndexError, except that
      an array refuses a subscript from 2^63 to 2^64 - 1 with
      OverflowError.
    - The dictionaries [posters] and [tags_definition] are association
      lists in insertion order; [tags_definition] lives in
      mangaki.utils.values and is taken as an argument.
    - Strings are sequences of characters with code points below 256;
      [int] is modelled on them.
    - [np.linalg.norm] is the square root of [np.dot(v, v)].  numpy leaves
      the order in which [np.dot] adds the products to the BLAS in use;
      here they are added from left to right, which is what every order
      gives for rows of one entry.  The runs below use one tag, or rows
      for which every order gives the same sum; no other statement
      depends on the order.
    - numpy's float division does not raise on a zero divisor (it warns and
      yields an infinity or a NaN), so [fdiv] is total.
    - The rows of [poster_tags] have [nb_tags] entries each, as the loader
      builds them; shape errors of numpy are not modelled.
    - Memory is not modelled: a list or an array of any non-negative size
      is built. *)

From Stdlib Require Import ZArith List String Ascii Bool Lia FinFun.
From Stdlib Require Import Reals Lra R_Ifp.
From Stdlib Require Import Floats.
From Stdlib Require Uint63.
Import ListNotations.

Set Warnings "-inexact-float".
Open Scope Z_scope.

(** ** Exceptions and the result monad *)

(** The Python exceptions the modelled code can raise, by the place
    that raises them. *)
Inductive exn : Type :=
| ValueError_int    (* int(str): invalid literal for int() with base 10 *)
| ValueError_max    (* max() of an empty sequence *)
| ValueError_dims   (* np.zeros: negative dimensions are not allowed *)
| KeyError          (* tags_definition[tag]: tag absent from the table *)
| IndexError        (* list or array subscript out of range *)
| FloorError        (* math.floor of nan or of an infinity *)
| OverflowError.    (* array subscript from 2^63 to 2^64 - 1 *)

Inductive result (A : Type) : Type :=
| Ok (a : A)
| Err (e : exn).
Arguments Ok {A} a.
Arguments Err {A} e.

Definition bind {A B : Type} (r : result A) (k : A -> result B) : result B :=
  match r with
  | Ok a => k a
  | Err e => Err e
  end.

Notation "x <- c ;; k" := (bind c (fun x => k))
  (at level 61, c at next level, right associativity).

Definition of_option {A : Type} (e : exn) (o : option A) : result A :=
  match o with
  | Some a => Ok a
  | None => Err e
  end.

(** A loop [for x in xs: body] whose body may raise. *)
Fixpoint for_each {S A : Type} (body : S -> A -> result S) (xs : list A) (s : S)
  : result S :=
  match xs with
  | [] => Ok s
  | x :: xs' => s' <- body s x ;; for_each body xs' s'
  end.

(** ** Python sequences *)

(** [range(n)]. *)
Definition range (n : Z) : list Z := map Z.of_nat (seq 0 (Z.to_nat n)).

(** Subscript [i] of a sequence of length [n]: a negative subscript counts
    from the end, anything outside [-n, n) raises IndexError. *)
Definition py_index (n : nat) (i : Z) : option nat :=
  if (0 <=? i) && (i <? Z.of_nat n) then Some (Z.to_nat i)
  else if (- Z.of_nat n <=? i) && (i <? 0) then Some (Z.to_nat (i + Z.of_nat n))
  else None.

Fixpoint set_nth {A : Type} (n : nat) (x : A) (l : list A) : list A :=
  match l, n with
  | [], _ => []
  | _ :: l', O => x :: l'
  | y :: l', S n' => y :: set_nth n' x l'
  end.

(** [l[i]]. *)
Definition getitem {A : Type} (l : list A) (i : Z) : result A :=
  match py_index (List.length l) i with
  | Some n => of_option IndexError (nth_error l n)
  | None => Err IndexError
  end.

(** [l[i] = x]. *)
Definition setitem {A : Type} (l : list A) (i : Z) (x : A) : result (list A) :=
  match py_index (List.length l) i with
  | Some n => Ok (set_nth n x l)
  | None => Err IndexError
  end.

(** Subscripts of a numpy array.  A subscript out of range raises
    IndexError, except that an integer from 2^63 to 2^64 - 1 (too large
    for a signed 64-bit integer, not for an unsigned one) raises
    OverflowError. *)
Definition np_subscript_error (i : Z) : exn :=
  if (2 ^ 63 <=? i) && (i <? 2 ^ 64) then OverflowError else IndexError.

(** [arr[i]] for an array [arr]. *)
Definition np_getitem {A : Type} (l : list A) (i : Z) : result A :=
  match py_index (List.length l) i with
  | Some n => of_option IndexError (nth_error l n)
  | None => Err (np_subscript_error i)
  end.

(** [arr[i] = x] for an array [arr]. *)
Definition np_setitem {A : Type} (l : list A) (i : Z) (x : A) : result (list A) :=
  match py_index (List.length l) i with
  | Some n => Ok (set_nth n x l)
  | None => Err (np_subscript_error i)
  end.

(** [max(l)] of a list of integers. *)
Definition py_max (l : list Z) : result Z :=
  match l with
  | [] => Err ValueError_max
  | x :: l' => Ok (fold_left Z.max l' x)
  end.

(** ** Python strings: the slice [s[:stop]] and [int(s)]

    A string is a sequence of characters with code points below 256.
    [int] follows CPython (3.11 and later) on them: surrounding whitespace
    is skipped, one sign is allowed, then decimal digits, where single
    underscores may separate digits; more than 4300 digits are refused.
    The whitespace that [int] skips is tab, line feed, vertical tab, form
    feed, carriage return and space, and, of the characters from 128 on,
    U+0085 and U+00A0, which [int] turns into spaces before it parses;
    the separators U+001C to U+001F are not skipped. *)

Definition py_slice_to (s : list ascii) (stop : Z) : list ascii :=
  let n := Z.of_nat (List.length s) in
  let stop' := if stop <? 0 then Z.max 0 (stop + n) else Z.min stop n in
  firstn (Z.to_nat stop') s.

Definition is_space (c : ascii) : bool :=
  let n := N_of_ascii c in
  ((9 <=? n) && (n <=? 13) || (n =? 32) || (n =? 133) || (n =? 160))%N.

Definition digit_value (c : ascii) : option Z :=
  let n := N_of_ascii c in
  if ((48 <=? n) && (n <=? 57))%N then Some (Z.of_N n - 48) else None.

Definition is_underscore (c : ascii) : bool := (N_of_ascii c =? 95)%N.

Fixpoint lstrip (s : list ascii) : list ascii :=
  match s with
  | c :: s' => if is_space c then lstrip s' else s
  | [] => []
  end.

Definition strip (s : list ascii) : list ascii :=
  rev (lstrip (rev (lstrip s))).

(** Digits with single underscores between them; [prev_us] tells that the
    previous character was an underscore. *)
Fixpoint digits_value (prev_us : bool) (acc : Z) (s : list ascii) : option Z :=
  match s with
  | [] => if prev_us then None else Some acc
  | c :: s' =>
      if is_underscore c then
        if prev_us then None else digits_value true acc s'
      else
        match digit_value c with
        | Some d => digits_value false (10 * acc + d) s'
        | None => None
        end
  end.

(** The default of [sys.get_int_max_str_digits()]. *)
Definition max_str_digits : nat := 4300.

Definition count_digits (s : list ascii) : nat :=
  List.length
    (filter (fun c => match digit_value c with Some _ => true | None => false end) s).

Definition parse_digits (s : list ascii) : option Z :=
  match s with
  | [] => None
  | c :: _ =>
      if is_underscore c then None
      else if (max_str_digits <? count_digits s)%nat then None
      else digits_value false 0 s
  end.

Definition py_int (s : list ascii) : option Z :=
  match strip s with
  | c :: s' =>
      if (N_of_ascii c =? 45)%N then option_map Z.opp (parse_digits s')
      else if (N_of_ascii c =? 43)%N then parse_digits s'
      else parse_digits (c :: s')
  | [] => None
  end.

(** [int(s)] of a string. *)
Definition int_of_string (s : string) : result Z :=
  of_option ValueError_int (py_int (list_ascii_of_string s)).

(** [poster[:len(poster)-4]]: the key without its last four characters. *)
Definition key_prefix (poster : string) : list ascii :=
  let s := list_ascii_of_string poster in
  py_slice_to s (Z.of_nat (List.length s) - 4).

(** The specification's reading of a key's prefix, for comparison with
    [py_int]: a non-empty run of decimal digits. *)
Definition nonneg_decimal (s : list ascii) : bool :=
  match s with
  | [] => false
  | _ => forallb (fun c => match digit_value c with Some _ => true | None => false end) s
  end.

(** ** The arithmetic of the source *)

Class Arith (F : Type) : Type := {
  fzero : F;                      (* an entry of np.zeros *)
  of_Z : Z -> F;                  (* a Python int used in float arithmetic *)
  fadd : F -> F -> F;
  fsub : F -> F -> F;
  fmul : F -> F -> F;
  fdiv : F -> F -> F;
  fsqrt : F -> F;
  fltb : F -> F -> bool;          (* x < y *)
  ffloor : F -> option Z          (* math.floor; None where it raises *)
}.

Definition fgtb {F : Type} `{Arith F} (x y : F) : bool := fltb y x.

(** Binary64.  [math.floor] is read off the sign, mantissa and exponent of
    the float; conversion of an integer is exact below 2^53 and correctly
    rounded below 2^63. *)
Definition float_floor (x : float) : option Z :=
  match Prim2SF x with
  | S754_zero _ => Some 0
  | S754_finite s m e => Some (Z.shiftl (if s then Z.neg m else Z.pos m) e)
  | S754_infinity _ => None
  | S754_nan => None
  end.

Definition float_of_Z (z : Z) : float :=
  if z <? 0 then PrimFloat.opp (PrimFloat.of_uint63 (Uint63.of_Z (- z)))
  else PrimFloat.of_uint63 (Uint63.of_Z z).

#[export] Instance Arith_float : Arith float := {|
  fzero := PrimFloat.zero;
  of_Z := float_of_Z;
  fadd := PrimFloat.add;
  fsub := PrimFloat.sub;
  fmul := PrimFloat.mul;
  fdiv := PrimFloat.div;
  fsqrt := PrimFloat.sqrt;
  fltb := PrimFloat.ltb;
  ffloor := float_floor
|}.

(** The floats 1 and 2 and the halving of the least mantissas in the
    specification of binary64 (sign, mantissa, exponent). *)
Definition sf_one : spec_float := S754_finite false 4503599627370496 (-52).
Definition sf_two : spec_float := S754_finite false 4503599627370496 (-51).

Definition half_mantissa (m : positive) : option positive :=
  match m with
  | xH => None
  | xO p => Some p
  | xI p => Some (if Z.even (Z.pos p) then p else Pos.succ p)
  end.

(** Exact reals. *)
Definition Rltb (x y : R) : bool := if Rlt_dec x y then true else false.

#[export] Instance Arith_R : Arith R := {|
  fzero := 0%R;
  of_Z := IZR;
  fadd := Rplus;
  fsub := Rminus;
  fmul := Rmult;
  fdiv := Rdiv;
  fsqrt := R_sqrt.sqrt;
  fltb := Rltb;
  ffloor := fun x => Some (Int_part x)
|}.

(** ** The program *)

Section Program.

Context {F : Type} `{Arith F}.

(** *** numpy on rows *)

Fixpoint map2 (f : F -> F -> F) (u v : list F) : list F :=
  match u, v with
  | x :: u', y :: v' => f x y :: map2 f u' v'
  | _, _ => []
  end.

(** [u - v] and [u + v] on arrays of one shape. *)
Definition vsub (u v : list F) : list F := map2 fsub u v.
Definition vadd (u v : list F) : list F := map2 fadd u v.

(** [np.dot(u, v)] of two 1-D arrays: the products summed left to right. *)
Definition np_dot (u v : list F) : F :=
  fold_left (fun acc xy => fadd acc (fmul (fst xy) (snd xy))) (combine u v) fzero.

(** [np.linalg.norm(v)] of a 1-D array: [sqrt(dot(v, v))]. *)
Definition np_norm (v : list F) : F := fsqrt (np_dot v v).

(** [np.zeros((rows, cols))]. *)
Definition np_zeros (rows : Z) (cols : nat) : result (list (list F)) :=
  if rows <? 0 then Err ValueError_dims
  else Ok (repeat (repeat fzero cols) (Z.to_nat rows)).

(** *** Module-level state

    [posters] is the dictionary read from mangaki_i2v.json, in insertion
    order: each key with the list under its 'general' field.
    [tags_definition] (mangaki.utils.values) maps a tag name to its
    column. *)

Definition posters_t : Type := list (string * list (string * F)).
Definition tags_t : Type := list (string * Z).

Fixpoint tag_lookup (tags_definition : tags_t) (tag : string) : option Z :=
  match tags_definition with
  | [] => None
  | (t, c) :: rest => if String.eqb t tag then Some c else tag_lookup rest tag
  end.

Record globals : Type := {
  nb_tags : nat;
  index_posters : list Z;
  poster_tags : list (list F)
}.

(** [int(poster[:len(poster)-4])]. *)
Definition key_index (poster : string) : result Z :=
  of_option ValueError_int (py_int (key_prefix poster)).

(** Lines 12-17: [index_posters] starts as [[.0] * len(posters)] (the
    placeholder 0.0 equals the integer 0) and is filled at [i]. *)
Definition index_step (st : list Z * Z) (entry : string * list (string * F))
  : result (list Z * Z) :=
  index <- key_index (fst entry) ;;
  ip <- setitem (fst st) (snd st) index ;;
  Ok (ip, snd st + 1).

Definition index_loop (posters : posters_t) : result (list Z * Z) :=
  for_each index_step posters (repeat 0 (List.length posters), 0).

(** Line 22: [poster_tags[index][tags_definition[tag]] = value]. *)
Definition store_tag (tags_definition : tags_t) (index : Z)
  (pt : list (list F)) (tv : string * F) : result (list (list F)) :=
  row <- np_getitem pt index ;;
  col <- of_option KeyError (tag_lookup tags_definition (fst tv)) ;;
  row' <- np_setitem row col (snd tv) ;;
  np_setitem pt index row'.

(** Lines 19-22. *)
Definition tags_step (tags_definition : tags_t) (pt : list (list F))
  (entry : string * list (string * F)) : result (list (list F)) :=
  index <- key_index (fst entry) ;;
  for_each (store_tag tags_definition index) (snd entry) pt.

(** Lines 10-22, the module's initialisation. *)
Definition load_posters (tags_definition : tags_t) (posters : posters_t)
  : result globals :=
  let nb := List.length tags_definition in
  st <- index_loop posters ;;
  m <- py_max (fst st) ;;
  zeros <- np_zeros (m + 1) nb ;;
  pt <- for_each (tags_step tags_definition) posters zeros ;;
  Ok {| nb_tags := nb; index_posters := fst st; poster_tags := pt |}.

(** *** [distance] and [morphing] *)

Definition distance (a b : list F) : F := np_norm (vsub b a).

(** Line 34: [sub_middles[i] = poster_tags[a] + segment * (i+1)/(subdiv)]. *)
Definition middle_step (g : globals) (a subdiv : Z) (segment : list F)
  (sub_middles : list (list F)) (i : Z) : result (list (list F)) :=
  pa <- np_getitem (poster_tags g) a ;;
  np_setitem sub_middles i
    (vadd pa (map (fun s => fdiv (fmul s (of_Z (i + 1))) (of_Z subdiv)) segment)).

(** The local variables of [morphing] when its loop over the rows starts. *)
Record locals : Type := {
  segment : list F;
  seg_norm : F;
  sub_middles : list (list F);
  subdiv_lenght : F;
  morphism : list Z
}.

(** Lines 29-37. *)
Definition setup (g : globals) (a b subdiv : Z) : result locals :=
  pb <- np_getitem (poster_tags g) b ;;
  pa <- np_getitem (poster_tags g) a ;;
  let segment := vsub pb pa in
  let seg_norm := np_norm segment in
  zeros <- np_zeros (subdiv - 1) (nb_tags g) ;;
  let subdiv_lenght := fdiv seg_norm (of_Z subdiv) in
  sub_middles <- for_each (middle_step g a subdiv segment) (range (subdiv - 1)) zeros ;;
  let morphism := repeat 0 (Z.to_nat (subdiv + 1)) in
  morphism <- setitem morphism 0 a ;;
  morphism <- setitem morphism subdiv b ;;
  Ok {| segment := segment; seg_norm := seg_norm; sub_middles := sub_middles;
        subdiv_lenght := subdiv_lenght; morphism := morphism |}.

(** Line 43. *)
Definition projection (current segment : list F) (seg_norm : F) : F :=
  fdiv (np_dot current segment) seg_norm.

(** Line 45, the eligibility test. *)
Definition in_band (proj subdiv_lenght seg_norm : F) : bool :=
  fgtb proj (fdiv subdiv_lenght (of_Z 2))
  && fltb proj (fsub seg_norm (fdiv subdiv_lenght (of_Z 2))).

(** Line 47. *)
Definition sub_in (proj subdiv_lenght seg_norm : F) (subdiv : Z) : result Z :=
  fl <- of_option FloorError
          (ffloor (fmul (fdiv (fsub proj (fdiv subdiv_lenght (of_Z 2))) seg_norm)
                        (of_Z subdiv))) ;;
  Ok (fl + 1).

(** Line 49, the test that decides the assignment. *)
Definition takes_slot (g : globals) (sub_middles : list (list F))
  (morphism : list Z) (s i : Z) : result bool :=
  occ <- getitem morphism s ;;
  if occ =? 0 then Ok true
  else
    mid <- np_getitem sub_middles (s - 1) ;;
    pi <- np_getitem (poster_tags g) i ;;
    pocc <- np_getitem (poster_tags g) occ ;;
    Ok (fltb (distance mid pi) (distance mid pocc)).

(** Line 41, the guard on a candidate. *)
Definition is_candidate (g : globals) (a b i : Z) : bool :=
  negb (i =? a) && negb (i =? b) && existsb (Z.eqb i) (index_posters g).

(** Lines 40-50, the body of the loop over the rows. *)
Definition visit (g : globals) (a b subdiv : Z) (L : locals)
  (morphism : list Z) (i : Z) : result (list Z) :=
  if is_candidate g a b i then
    pi <- np_getitem (poster_tags g) i ;;
    pa <- np_getitem (poster_tags g) a ;;
    let current := vsub pi pa in
    let proj := projection current (segment L) (seg_norm L) in
    if in_band proj (subdiv_lenght L) (seg_norm L) then
      s <- sub_in proj (subdiv_lenght L) (seg_norm L) subdiv ;;
      take <- takes_slot g (sub_middles L) morphism s i ;;
      if (take : bool) then setitem morphism s i else Ok morphism
    else Ok morphism
  else Ok morphism.

(** Lines 28-51. *)
Definition morphing (g : globals) (a b subdiv : Z) : result (list Z) :=
  L <- setup g a b subdiv ;;
  let nb_posters := Z.of_nat (List.length (poster_tags g)) in
  for_each (visit g a b subdiv L) (range nb_posters) (morphism L).

(** *** The divisions of line 43

    The loop again, with the operands of every division of line 43
    ([np.dot(current_vect, segment)/seg_norm]) recorded in the order in
    which they are evaluated: the state of the loop is the morphism and
    the list of the (dividend, divisor) pairs so far. *)
Definition visit_traced (g : globals) (a b subdiv : Z) (L : locals)
  (st : list Z * list (F * F)) (i : Z) : result (list Z * list (F * F)) :=
  let morphism := fst st in
  if is_candidate g a b i then
    pi <- np_getitem (poster_tags g) i ;;
    pa <- np_getitem (poster_tags g) a ;;
    let current := vsub pi pa in
    let dividend := np_dot current (segment L) in
    let divisions := snd st ++ [(dividend, seg_norm L)] in
    let proj := fdiv dividend (seg_norm L) in
    if in_band proj (subdiv_lenght L) (seg_norm L) then
      s <- sub_in proj (subdiv_lenght L) (seg_norm L) subdiv ;;
      take <- takes_slot g (sub_middles L) morphism s i ;;
      if (take : bool) then
        morphism' <- setitem morphism s i ;;
        Ok (morphism', divisions)
      else Ok (morphism, divisions)
    else Ok (morphism, divisions)
  else Ok st.

Definition morphing_traced (g : globals) (a b subdiv : Z)
  : result (list Z * list (F * F)) :=
  L <- setup g a b subdiv ;;
  let nb_posters := Z.of_nat (List.length (poster_tags g)) in
  for_each (visit_traced g a b subdiv L) (range nb_posters) (morphism L, []).

(** *** Readings of the loop body used in the statements below *)

(** A key whose prefix [int] accepts. *)
Definition key_parses (entry : string * list (string * F)) : Prop :=
  py_int (key_prefix (fst entry)) <> None.

(** The projection that [visit] computes for row [i]. *)
Definition proj_of (g : globals) (a : Z) (L : locals) (i : Z) : F :=
  match getitem (poster_tags g) i, getitem (poster_tags g) a with
  | Ok pi, Ok pa => projection (vsub pi pa) (segment L) (seg_norm L)
  | _, _ => fzero
  end.

(** Row [i] passes the guards of lines 41 and 45. *)
Definition eligible (g : globals) (a b : Z) (L : locals) (i : Z) : bool :=
  is_candidate g a b i
  && in_band (proj_of g a L i) (subdiv_lenght L) (seg_norm L).

(** The slot index that [visit] computes for row [i]. *)
Definition slot_of (g : globals) (a subdiv : Z) (L : locals) (i : Z) : result Z :=
  sub_in (proj_of g a L i) (subdiv_lenght L) (seg_norm L) subdiv.

(** A matrix of [rows] rows of [nb] entries each. *)
Definition shaped (rows nb : nat) (M : list (list F)) : Prop :=
  List.length M = rows /\ Forall (fun row => List.length row = nb) M.

(** The entry [M[r][c]] of a matrix. *)
Definition cell (M : list (list F)) (r c : nat) : option F :=
  match nth_error M r with
  | Some row => nth_error row c
  | None => None
  end.

(** The cell that line 22 writes for the key [key] and the tag [tag], in
    a matrix of [rows] rows and [nb] columns. *)
Definition write_target (tags_definition : tags_t) (rows nb : nat)
  (key tag : string) : option (nat * nat) :=
  match py_int (key_prefix key), tag_lookup tags_definition tag with
  | Some index, Some col =>
      match py_index rows index, py_index nb col with
      | Some r, Some c => Some (r, c)
      | _, _ => None
      end
  | _, _ => None
  end.

(** *** The command

    Lines 60-67, [Command.handle]: [myargs] is the list of the command's
    positional arguments; the value returned is the list that is printed. *)
Definition handle (g : globals) (myargs : list string) : result (list Z) :=
  arg0 <- getitem myargs 0 ;;
  a <- int_of_string arg0 ;;
  arg1 <- getitem myargs 1 ;;
  b <- int_of_string arg1 ;;
  if (Z.of_nat (List.length myargs) =? 2) then morphing g a b 4
  else
    arg2 <- getitem myargs 2 ;;
    subdiv <- int_of_string arg2 ;;
    morphing g a b subdiv.

End Program.

Arguments globals F : clear implicits.
Arguments posters_t F : clear implicits.
Arguments locals F : clear implicits.

(** ** mangaki/views.py: the page window *)

(** [range(start, stop)]. *)
Definition range_from (start stop : Z) : list Z :=
  map (fun i => start + Z.of_nat i) (seq 0 (Z.to_nat (stop - start))).

(** [context['pages']] (lines 196 and 256): the page numbers offered
    around page [number] of a paginator with [num_pages] pages,
    [filter(lambda x: 1 <= x <= num_pages, range(number - 2, number + 2 + 1))]. *)
Definition pages (number num_pages : Z) : list Z :=
  filter (fun x => (1 <=? x) && (x <=? num_pages))
         (range_from (number - 2) (number + 2 + 1)).

(** ** Concrete inputs *)

Module Runs.

#[local] Open Scope float_scope.

Definition tags : tags_t := [("catgirl"%string, 0%Z); ("robot"%string, 1%Z)].

(** The two-entry input of the specification's loader example. *)
Definition two_posters : posters_t float :=
  [ ("5.jpg"%string, [("catgirl"%string, 1.0)]);
    ("9.jpg"%string, [("robot"%string, 0.5)]) ].

Definition two_corpus : globals float :=
  {| nb_tags := 2;
     index_posters := [5%Z; 9%Z];
     poster_tags := [ [0; 0]; [0; 0]; [0; 0]; [0; 0]; [0; 0]; [1; 0];
                      [0; 0]; [0; 0]; [0; 0]; [0; 0.5] ] |}.

(** The same input with the first key negative. *)
Definition negative_key_posters : posters_t float :=
  [ ("-1.jpg"%string, [("catgirl"%string, 1.0)]);
    ("9.jpg"%string, [("robot"%string, 0.5)]) ].

(** A one-dimensional tag space. *)
Definition one_tag : tags_t := [("t"%string, 0%Z)].

Definition line (ids : list (string * float)) : posters_t float :=
  map (fun kv => (fst kv, [("t"%string, snd kv)])) ids.

(** The double just below 5/6 (0x1.aaaaaaaaaaaaap-1). *)
Definition below_five_sixths : float := 0.8333333333333333.

(** Items at 0 and 1 and one item just below 5/6; the far end is item 3,
    or item 0. *)
Definition rounding_posters : posters_t float :=
  line [("1.jpg"%string, 0); ("2.jpg"%string, below_five_sixths);
        ("3.jpg"%string, 1)].

Definition rounding_corpus : globals float :=
  {| nb_tags := 1;
     index_posters := [1%Z; 2%Z; 3%Z];
     poster_tags := [ [0]; [0]; [below_five_sixths]; [1] ] |}.

Definition rounding_posters_zero : posters_t float :=
  line [("1.jpg"%string, 0); ("2.jpg"%string, below_five_sixths);
        ("0.jpg"%string, 1)].

Definition rounding_corpus_zero : globals float :=
  {| nb_tags := 1;
     index_posters := [1%Z; 2%Z; 0%Z];
     poster_tags := [ [1]; [0]; [below_five_sixths] ] |}.

(** Items 1 and 2 at 0 and 1; item 0 at the middle, item 3 at 0.625. *)
Definition sentinel_posters : posters_t float :=
  line [("0.jpg"%string, 0.5); ("1.jpg"%string, 0); ("2.jpg"%string, 1);
        ("3.jpg"%string, 0.625)].

Definition sentinel_corpus : globals float :=
  {| nb_tags := 1;
     index_posters := [0%Z; 1%Z; 2%Z; 3%Z];
     poster_tags := [ [0.5]; [0]; [1]; [0.625] ] |}.

(** The same points with the items numbered 4 and 5 instead of 0 and 3. *)
Definition nearer_posters : posters_t float :=
  line [("4.jpg"%string, 0.5); ("1.jpg"%string, 0); ("2.jpg"%string, 1);
        ("5.jpg"%string, 0.625)].

Definition nearer_corpus : globals float :=
  {| nb_tags := 1;
     index_posters := [4%Z; 1%Z; 2%Z; 5%Z];
     poster_tags := [ [0]; [0]; [1]; [0]; [0.5]; [0.625] ] |}.

(** Items 1 and 2 at 0 and 1; item 0 far beyond the segment. *)
Definition idle_posters : posters_t float :=
  line [("0.jpg"%string, 5); ("1.jpg"%string, 0); ("2.jpg"%string, 1)].

Definition idle_corpus : globals float :=
  {| nb_tags := 1;
     index_posters := [0%Z; 1%Z; 2%Z];
     poster_tags := [ [5]; [0]; [1] ] |}.

(** An entry with a tag that the table does not know. *)
Definition unknown_tag_posters : posters_t float :=
  [ ("5.jpg"%string, [("dog"%string, 1.0)]) ].

(** An entry that gives the tag catgirl twice. *)
Definition rewritten_posters : posters_t float :=
  [ ("5.jpg"%string, [("catgirl"%string, 1.0); ("catgirl"%string, 0.25)]);
    ("9.jpg"%string, [("robot"%string, 0.5)]) ].

Definition rewritten_corpus : globals float :=
  {| nb_tags := 2;
     index_posters := [5%Z; 9%Z];
     poster_tags := [ [0; 0]; [0; 0]; [0; 0]; [0; 0]; [0; 0]; [0.25; 0];
                      [0; 0]; [0; 0]; [0; 0]; [0; 0.5] ] |}.

Definition no_locals : locals float :=
  {| segment := []; seg_norm := 0; sub_middles := []; subdiv_lenght := 0;
     morphism := [] |}.

(** The locals of [morphing(1, 2, 3)] on [idle_corpus]. *)
Definition idle_locals : locals float :=
  Eval vm_compute in
    match setup idle_corpus 1 2 3 with Ok L => L | Err _ => no_locals end.


Definition zero_corpus : globals float :=
  {| nb_tags := 1;
     index_posters := [1%Z; 2%Z; 3%Z];
     poster_tags := [ [0]; [0]; [0]; [1] ] |}.


(** Items 1 and 2 at 0 and 1e-200, whose distance underflows to 0; item 3
    at 1e200. *)
Definition underflow_posters : posters_t float :=
  line [("1.jpg"%string, 0); ("2.jpg"%string, 1e-200); ("3.jpg"%string, 1e200)].

Definition underflow_corpus : globals float :=
  {| nb_tags := 1;
     index_posters := [1%Z; 2%Z; 3%Z];
     poster_tags := [ [0]; [0]; [1e-200]; [1e200] ] |}.

End Runs.

(** ** Sequences: basic facts *)

Lemma py_index_lt (n : nat) (i : Z) (p : nat) :
  py_index n i = Some p -> (p < n)%nat.
Proof.
  unfold py_index.
  destruct ((0 <=? i) && (i <? Z.of_nat n)) eqn:E1.
  - intros [= <-]. apply andb_true_iff in E1 as [? ?]. lia.
  - destruct ((- Z.of_nat n <=? i) && (i <? 0)) eqn:E2; [|discriminate].
    intros [= <-]. apply andb_true_iff in E2 as [? ?]. lia.
Qed.

Lemma py_index_nonneg (n : nat) (i : Z) :
  0 <= i < Z.of_nat n -> py_index n i = Some (Z.to_nat i).
Proof.
  intros Hi. unfold py_index.
  replace ((0 <=? i) && (i <? Z.of_nat n)) with true; [reflexivity|].
  symmetry. apply andb_true_iff. split; lia.
Qed.

Lemma py_index_none (n : nat) (i : Z) :
  py_index n i = None <-> i < - Z.of_nat n \/ Z.of_nat n <= i.
Proof.
  unfold py_index.
  destruct ((0 <=? i) && (i <? Z.of_nat n)) eqn:E1.
  - apply andb_true_iff in E1 as [? ?]. split; [discriminate | lia].
  - destruct ((- Z.of_nat n <=? i) && (i <? 0)) eqn:E2.
    + apply andb_true_iff in E2 as [? ?]. split; [discriminate | lia].
    + apply andb_false_iff in E1, E2. split; [intros _ | reflexivity]. lia.
Qed.

Lemma set_nth_length {A : Type} (n : nat) (x : A) (l : list A) :
  List.length (set_nth n x l) = List.length l.
Proof.
  revert n. induction l as [|y l IH]; intros [|n]; simpl; auto.
Qed.

Lemma nth_set_nth_same {A : Type} (n : nat) (x d : A) (l : list A) :
  (n < List.length l)%nat -> nth n (set_nth n x l) d = x.
Proof.
  revert n. induction l as [|y l IH]; intros [|n]; simpl; intros Hn;
    try lia; auto. apply IH. lia.
Qed.

Lemma nth_set_nth_other {A : Type} (n p : nat) (x d : A) (l : list A) :
  p <> n -> nth p (set_nth n x l) d = nth p l d.
Proof.
  revert n p. induction l as [|y l IH]; intros [|n] [|p]; simpl; intros Hn;
    try lia; auto.
Qed.

Lemma getitem_some {A : Type} (l : list A) (i : Z) (p : nat) :
  py_index (List.length l) i = Some p ->
  exists x, getitem l i = Ok x /\ nth_error l p = Some x.
Proof.
  intros Hp. unfold getitem. rewrite Hp.
  destruct (nth_error l p) as [x|] eqn:E.
  - exists x. auto.
  - apply nth_error_None in E. apply py_index_lt in Hp. lia.
Qed.

Lemma getitem_none {A : Type} (l : list A) (i : Z) :
  py_index (List.length l) i = None -> getitem l i = Err IndexError.
Proof. intros Hp. unfold getitem. now rewrite Hp. Qed.

Lemma getitem_inv {A : Type} (l : list A) (i : Z) (x : A) :
  getitem l i = Ok x ->
  exists p, py_index (List.length l) i = Some p /\ nth_error l p = Some x.
Proof.
  unfold getitem. destruct (py_index (List.length l) i) as [p|]; [|discriminate].
  destruct (nth_error l p) as [y|] eqn:E; simpl; [|discriminate].
  intros [= <-]. eauto.
Qed.

Lemma getitem_error {A : Type} (l : list A) (i : Z) (e : exn) :
  getitem l i = Err e -> e = IndexError.
Proof.
  unfold getitem. destruct (py_index (List.length l) i) as [p|].
  - destruct (nth_error l p); simpl; congruence.
  - congruence.
Qed.

Lemma setitem_error {A : Type} (l : list A) (i : Z) (x : A) (e : exn) :
  setitem l i x = Err e -> e = IndexError.
Proof.
  unfold setitem. destruct (py_index (List.length l) i); congruence.
Qed.

Lemma setitem_length {A : Type} (l l' : list A) (i : Z) (x : A) :
  setitem l i x = Ok l' -> List.length l' = List.length l.
Proof.
  unfold setitem. destruct (py_index (List.length l) i); [|discriminate].
  intros [= <-]. apply set_nth_length.
Qed.

(** Array subscripts agree with list subscripts where they succeed, and
    differ in the exception only. *)
Lemma np_getitem_ok {A : Type} (l : list A) (i : Z) (x : A) :
  np_getitem l i = Ok x <-> getitem l i = Ok x.
Proof.
  unfold np_getitem, getitem.
  destruct (py_index (List.length l) i); [reflexivity | split; discriminate].
Qed.

Lemma np_setitem_ok {A : Type} (l l' : list A) (i : Z) (x : A) :
  np_setitem l i x = Ok l' <-> setitem l i x = Ok l'.
Proof.
  unfold np_setitem, setitem.
  destruct (py_index (List.length l) i); [reflexivity | split; discriminate].
Qed.

Lemma np_getitem_eq {A : Type} (l : list A) (i : Z) :
  np_getitem l i
  = match getitem l i with
    | Ok x => Ok x
    | Err _ => Err (np_subscript_error i)
    end.
Proof.
  unfold np_getitem, getitem.
  destruct (py_index (List.length l) i) as [p|] eqn:Ep; [|reflexivity].
  destruct (nth_error l p) eqn:E; [reflexivity|].
  apply nth_error_None in E. apply py_index_lt in Ep. lia.
Qed.

Lemma np_getitem_some {A : Type} (l : list A) (i : Z) (p : nat) :
  py_index (List.length l) i = Some p ->
  exists x, np_getitem l i = Ok x /\ nth_error l p = Some x.
Proof.
  intros Hp. destruct (getitem_some l i p Hp) as [x [Hx Hn]].
  exists x. split; [now apply np_getitem_ok | assumption].
Qed.

Lemma np_getitem_none {A : Type} (l : list A) (i : Z) :
  py_index (List.length l) i = None ->
  np_getitem l i = Err (np_subscript_error i).
Proof. intros Hp. unfold np_getitem. now rewrite Hp. Qed.

Lemma np_getitem_inv {A : Type} (l : list A) (i : Z) (x : A) :
  np_getitem l i = Ok x ->
  exists p, py_index (List.length l) i = Some p /\ nth_error l p = Some x.
Proof. intros Hx. apply getitem_inv. now apply np_getitem_ok. Qed.

Lemma np_subscript_error_cases (i : Z) :
  np_subscript_error i = IndexError \/ np_subscript_error i = OverflowError.
Proof.
  unfold np_subscript_error. destruct ((2 ^ 63 <=? i) && (i <? 2 ^ 64)); auto.
Qed.

Lemma np_getitem_error {A : Type} (l : list A) (i : Z) (e : exn) :
  np_getitem l i = Err e -> e = IndexError \/ e = OverflowError.
Proof.
  unfold np_getitem. destruct (py_index (List.length l) i) as [p|].
  - destruct (nth_error l p); simpl; [discriminate | intros [= <-]; now left].
  - intros [= <-]. apply np_subscript_error_cases.
Qed.

Lemma np_setitem_error {A : Type} (l : list A) (i : Z) (x : A) (e : exn) :
  np_setitem l i x = Err e -> e = IndexError \/ e = OverflowError.
Proof.
  unfold np_setitem. destruct (py_index (List.length l) i); [discriminate|].
  intros [= <-]. apply np_subscript_error_cases.
Qed.

Lemma np_setitem_length {A : Type} (l l' : list A) (i : Z) (x : A) :
  np_setitem l i x = Ok l' -> List.length l' = List.length l.
Proof. intros Hs. apply np_setitem_ok in Hs. eapply setitem_length; eauto. Qed.

(** A loop whose body keeps an invariant keeps it. *)
Lemma for_each_invariant {S A : Type} (P : S -> Prop)
  (body : S -> A -> result S) (xs : list A) :
  (forall s x s', In x xs -> P s -> body s x = Ok s' -> P s') ->
  forall s s', P s -> for_each body xs s = Ok s' -> P s'.
Proof.
  induction xs as [|x xs IH]; simpl; intros Hb s s' Hs.
  - now intros [= <-].
  - destruct (body s x) as [s1|e] eqn:E; simpl; [|discriminate].
    apply IH; eauto.
Qed.

(** A loop whose body does nothing does nothing. *)
Lemma for_each_skip {S A : Type} (body : S -> A -> result S) (xs : list A) (s : S) :
  (forall x, In x xs -> body s x = Ok s) -> for_each body xs s = Ok s.
Proof.
  induction xs as [|x xs IH]; simpl; intros Hb; [reflexivity|].
  rewrite Hb by auto. simpl. apply IH. auto.
Qed.

Lemma in_range (n i : Z) : In i (range n) <-> 0 <= i < n.
Proof.
  unfold range. rewrite in_map_iff. split.
  - intros [k [<- Hk]]. apply in_seq in Hk. lia.
  - intros Hi. exists (Z.to_nat i). split; [lia|]. apply in_seq. lia.
Qed.

(** ** The loader *)

Section Loader.

Context {F : Type} `{Arith F}.

Lemma key_index_ok (entry : string * list (string * F)) :
  key_parses entry -> exists z, key_index (fst entry) = Ok z.
Proof.
  unfold key_parses, key_index.
  destruct (py_int (key_prefix (fst entry))) as [z|];
    [intros _; exists z; reflexivity | congruence].
Qed.

Lemma key_index_bad (poster : string) :
  py_int (key_prefix poster) = None -> key_index poster = Err ValueError_int.
Proof. unfold key_index. now intros ->. Qed.

Lemma keys_parse_or_not (posters : posters_t F) :
  Forall key_parses posters
  \/ exists entry, In entry posters /\ py_int (key_prefix (fst entry)) = None.
Proof.
  induction posters as [|entry posters [IH|[e [He Hbad]]]].
  - left. constructor.
  - destruct (py_int (key_prefix (fst entry))) as [z|] eqn:E.
    + left. constructor; [unfold key_parses; congruence | assumption].
    + right. exists entry. split; [now left | assumption].
  - right. exists e. split; [now right | assumption].
Qed.

(** The first loop stops with ValueError at the first key that does not
    parse, and completes otherwise: the store at [i] is always in range. *)
Lemma index_loop_from (l : posters_t F) (ip : list Z) (i : Z) :
  0 <= i -> i + Z.of_nat (List.length l) <= Z.of_nat (List.length ip) ->
  (Forall key_parses l ->
     exists st, for_each index_step l (ip, i) = Ok st
                /\ List.length (fst st) = List.length ip)
  /\ ((exists entry, In entry l /\ py_int (key_prefix (fst entry)) = None) ->
     for_each index_step l (ip, i) = Err ValueError_int).
Proof.
  revert ip i. induction l as [|entry l IH]; intros ip i Hi Hlen.
  - split.
    + intros _. exists (ip, i). auto.
    + intros [e [[] _]].
  - change (List.length (entry :: l)) with (S (List.length l)) in Hlen.
    rewrite Nat2Z.inj_succ in Hlen.
    change (for_each index_step (entry :: l) (ip, i))
      with (bind (index_step (ip, i) entry) (for_each index_step l)).
    unfold index_step, key_index. simpl fst; simpl snd.
    destruct (py_int (key_prefix (fst entry))) as [z|] eqn:E; simpl.
    + unfold setitem. rewrite py_index_nonneg by lia. simpl.
      specialize (IH (set_nth (Z.to_nat i) z ip) (i + 1)).
      rewrite set_nth_length in IH.
      destruct IH as [IHok IHbad]; [lia | lia |].
      split.
      * intros Hall. inversion Hall; subst. auto.
      * intros [e [[<- | Hin] Hbad]]; [congruence | eauto].
    + split.
      * intros Hall. inversion Hall; subst. unfold key_parses in *. congruence.
      * reflexivity.
Qed.

Lemma store_loop_error (tags_definition : tags_t) (index : Z)
  (l : list (string * F)) (pt : list (list F)) (e : exn) :
  for_each (store_tag tags_definition index) l pt = Err e ->
  e = KeyError \/ e = IndexError \/ e = OverflowError.
Proof.
  revert pt. induction l as [|tv l IH]; simpl; intros pt; [discriminate|].
  destruct (store_tag tags_definition index pt tv) as [pt'|e'] eqn:E; simpl.
  - apply IH.
  - intros [= <-]. unfold store_tag in E.
    destruct (np_getitem pt index) as [row|e1] eqn:E1; simpl in E;
      [|injection E as <-; right; eapply np_getitem_error; eauto].
    destruct (tag_lookup tags_definition (fst tv)) as [col|]; simpl in E;
      [|injection E as <-; now left].
    destruct (np_setitem row col (snd tv)) as [row'|e2] eqn:E2; simpl in E;
      [|injection E as <-; right; eapply np_setitem_error; eauto].
    right. eapply np_setitem_error; eauto.
Qed.

Lemma tags_loop_error (tags_definition : tags_t) (l : posters_t F)
  (pt : list (list F)) (e : exn) :
  Forall key_parses l ->
  for_each (tags_step tags_definition) l pt = Err e ->
  e = KeyError \/ e = IndexError \/ e = OverflowError.
Proof.
  intros Hall. revert pt. induction Hall as [|entry l Hp Hall IH]; simpl; intros pt;
    [discriminate|].
  unfold tags_step at 1.
  destruct (key_index_ok entry Hp) as [z ->]. simpl.
  destruct (for_each (store_tag tags_definition z) (snd entry) pt) as [pt'|e'] eqn:E;
    simpl.
  - apply IH.
  - intros [= <-]. eapply store_loop_error; eauto.
Qed.

Lemma load_posters_int_error (tags_definition : tags_t) (posters : posters_t F) :
  load_posters tags_definition posters = Err ValueError_int
  <-> exists entry, In entry posters /\ py_int (key_prefix (fst entry)) = None.
Proof.
  unfold load_posters, index_loop.
  destruct (index_loop_from posters (repeat 0 (List.length posters)) 0) as [Hok Hbad];
    [lia | rewrite repeat_length; lia |].
  split.
  - intros Hload.
    destruct (keys_parse_or_not posters) as [Hall|Hex]; [exfalso | exact Hex].
    destruct (Hok Hall) as [st [Est _]]. rewrite Est in Hload. simpl in Hload.
    destruct (py_max (fst st)) as [m|e1] eqn:E1; simpl in Hload.
    2:{ destruct (fst st); simpl in E1; congruence. }
    destruct (np_zeros (m + 1) (List.length tags_definition)) as [z|e2] eqn:E2;
      simpl in Hload.
    2:{ unfold np_zeros in E2. destruct (m + 1 <? 0); congruence. }
    destruct (for_each (tags_step tags_definition) posters z) as [pt|e3] eqn:E3;
      simpl in Hload; [discriminate|].
    injection Hload as ->.
    destruct (tags_loop_error _ _ _ _ Hall E3) as [?|[?|?]]; discriminate.
  - intros Hex. now rewrite (Hbad Hex).
Qed.

(** C9 (amended).  The loader fails with the ValueError of [int] exactly
    when the prefix of some key, the key without its last four characters,
    is not a literal that [int] accepts (surrounding whitespace, one
    optional sign, decimal digits); the key "abc.jpg" makes it fail; and
    the failure is that of the first loop (lines 13-16), which ends before
    the matrix [poster_tags] is created on line 18: the second loop
    parses the same keys and cannot fail on them. *)
Theorem load_posters_malformed_key (tags_definition : tags_t)
  (posters : posters_t F) :
  (load_posters tags_definition posters = Err ValueError_int
   <-> exists entry, In entry posters /\ py_int (key_prefix (fst entry)) = None)
  /\ (forall general, In ("abc.jpg"%string, general) posters ->
        load_posters tags_definition posters = Err ValueError_int)
  /\ (load_posters tags_definition posters = Err ValueError_int
      <-> index_loop posters = Err ValueError_int).
Proof.
  split; [apply load_posters_int_error|]. split.
  - intros general Hin. apply load_posters_int_error.
    exists ("abc.jpg"%string, general). split; [assumption | reflexivity].
  - split.
    + intros Hload. apply load_posters_int_error in Hload.
      unfold index_loop.
      destruct (index_loop_from posters (repeat 0 (List.length posters)) 0)
        as [_ Hbad]; [lia | rewrite repeat_length; lia |].
      exact (Hbad Hload).
    + intros Hloop. unfold load_posters. now rewrite Hloop.
Qed.

End Loader.

(** ** The engine: facts that hold in every arithmetic *)

Section Engine.

Context {F : Type} `{Arith F}.

Lemma set_nth_repeat_last (n : nat) (x y : Z) :
  set_nth n y (repeat x (S n)) = repeat x n ++ [y].
Proof. induction n as [|n IH]; simpl in *; congruence. Qed.

(** The list built by lines 35-37. *)
Lemma initial_morphism (a b subdiv : Z) :
  1 <= subdiv ->
  set_nth (Z.to_nat subdiv) b (set_nth 0 a (repeat 0 (Z.to_nat (subdiv + 1))))
  = a :: repeat 0 (Z.to_nat (subdiv - 1)) ++ [b].
Proof.
  intros Hk.
  replace (Z.to_nat (subdiv + 1)) with (S (S (Z.to_nat (subdiv - 1)))) by lia.
  replace (Z.to_nat subdiv) with (S (Z.to_nat (subdiv - 1))) by lia.
  cbn [repeat set_nth]. f_equal.
  apply (set_nth_repeat_last (Z.to_nat (subdiv - 1)) 0 b).
Qed.

Lemma middle_loop_ok (g : globals F) (a subdiv : Z) (seg pa : list F)
  (l : list Z) (sm : list (list F)) :
  np_getitem (poster_tags g) a = Ok pa ->
  (forall i, In i l -> 0 <= i < Z.of_nat (List.length sm)) ->
  exists sm', for_each (middle_step g a subdiv seg) l sm = Ok sm'
              /\ List.length sm' = List.length sm.
Proof.
  intros Ha. revert sm. induction l as [|i l IH]; intros sm Hl.
  - exists sm. auto.
  - simpl. unfold middle_step at 1. rewrite Ha. simpl.
    unfold np_setitem. rewrite py_index_nonneg by (apply Hl; now left). simpl.
    edestruct IH as [sm' [E Hlen]]; [|exists sm'; split; [exact E|]].
    + intros j Hj. rewrite set_nth_length. apply Hl. now right.
    + now rewrite Hlen, set_nth_length.
Qed.

(** Line 29 reads row [b] first, then row [a]. *)
Lemma setup_index_error_b (g : globals F) (a b subdiv : Z) :
  py_index (List.length (poster_tags g)) b = None ->
  setup g a b subdiv = Err (np_subscript_error b).
Proof. intros Eb. unfold setup. now rewrite (np_getitem_none _ _ Eb). Qed.

Lemma setup_index_error_a (g : globals F) (a b subdiv : Z) :
  py_index (List.length (poster_tags g)) b <> None ->
  py_index (List.length (poster_tags g)) a = None ->
  setup g a b subdiv = Err (np_subscript_error a).
Proof.
  intros Hb Ea. unfold setup.
  destruct (py_index (List.length (poster_tags g)) b) as [p|] eqn:Eb; [|congruence].
  destruct (np_getitem_some _ _ _ Eb) as [pb [-> _]]. simpl.
  now rewrite (np_getitem_none _ _ Ea).
Qed.

Lemma setup_dims_error (g : globals F) (a b subdiv : Z) :
  py_index (List.length (poster_tags g)) a <> None ->
  py_index (List.length (poster_tags g)) b <> None ->
  subdiv < 1 ->
  setup g a b subdiv = Err ValueError_dims.
Proof.
  intros Ha Hb Hk. unfold setup.
  destruct (py_index (List.length (poster_tags g)) b) as [q|] eqn:Eb; [|congruence].
  destruct (py_index (List.length (poster_tags g)) a) as [p|] eqn:Ea; [|congruence].
  destruct (np_getitem_some _ _ _ Eb) as [pb [-> _]].
  destruct (np_getitem_some _ _ _ Ea) as [pa [-> _]]. simpl.
  unfold np_zeros. replace (subdiv - 1 <? 0) with true by (symmetry; lia).
  reflexivity.
Qed.

Lemma setup_ok (g : globals F) (a b subdiv : Z) :
  py_index (List.length (poster_tags g)) a <> None ->
  py_index (List.length (poster_tags g)) b <> None ->
  1 <= subdiv ->
  exists L, setup g a b subdiv = Ok L
    /\ morphism L = a :: repeat 0 (Z.to_nat (subdiv - 1)) ++ [b]
    /\ List.length (sub_middles L) = Z.to_nat (subdiv - 1)
    /\ subdiv_lenght L = fdiv (seg_norm L) (of_Z subdiv).
Proof.
  intros Ha Hb Hk. unfold setup.
  destruct (py_index (List.length (poster_tags g)) b) as [q|] eqn:Eb; [|congruence].
  destruct (py_index (List.length (poster_tags g)) a) as [p|] eqn:Ea; [|congruence].
  destruct (np_getitem_some _ _ _ Eb) as [pb [Egb _]].
  destruct (np_getitem_some _ _ _ Ea) as [pa [Ega _]].
  rewrite Egb, Ega. simpl.
  unfold np_zeros. replace (subdiv - 1 <? 0) with false by (symmetry; lia).
  simpl.
  destruct (middle_loop_ok g a subdiv (vsub pb pa) pa (range (subdiv - 1))
              (repeat (repeat fzero (nb_tags g)) (Z.to_nat (subdiv - 1))) Ega)
    as [sm [-> Hsm]].
  { intros i Hi. apply in_range in Hi. rewrite repeat_length. lia. }
  cbn [bind]. unfold setitem. rewrite repeat_length.
  rewrite py_index_nonneg by lia. cbn [bind].
  rewrite set_nth_length, repeat_length.
  rewrite py_index_nonneg by lia. cbn [bind].
  eexists. split; [reflexivity|].
  cbn [morphism sub_middles subdiv_lenght seg_norm].
  rewrite repeat_length in Hsm. repeat split; auto.
  change (Z.to_nat 0) with 0%nat. now apply initial_morphism.
Qed.

(** What one turn of the loop can do to the morphism. *)
Lemma visit_not_eligible (g : globals F) (a b subdiv : Z) (L : locals F)
  (m : list Z) (i : Z) :
  py_index (List.length (poster_tags g)) a <> None ->
  py_index (List.length (poster_tags g)) i <> None ->
  eligible g a b L i = false ->
  visit g a b subdiv L m i = Ok m.
Proof.
  intros Ha Hi. unfold eligible, visit, proj_of.
  destruct (is_candidate g a b i); [|reflexivity]. simpl.
  destruct (py_index (List.length (poster_tags g)) a) as [p|] eqn:Ea; [|congruence].
  destruct (py_index (List.length (poster_tags g)) i) as [q|] eqn:Ei; [|congruence].
  rewrite !np_getitem_eq.
  destruct (getitem_some _ _ _ Ei) as [pi [-> _]].
  destruct (getitem_some _ _ _ Ea) as [pa [-> _]]. simpl.
  now intros ->.
Qed.

Lemma visit_inv (g : globals F) (a b subdiv : Z) (L : locals F)
  (m m' : list Z) (i : Z) :
  visit g a b subdiv L m i = Ok m' ->
  m' = m
  \/ (eligible g a b L i = true
      /\ exists s p, slot_of g a subdiv L i = Ok s
                     /\ py_index (List.length m) s = Some p
                     /\ m' = set_nth p i m).
Proof.
  unfold visit, eligible, slot_of, proj_of.
  destruct (is_candidate g a b i); [|intros [= <-]; now left]. simpl.
  rewrite !np_getitem_eq.
  destruct (getitem (poster_tags g) i) as [pi|]; simpl; [|discriminate].
  destruct (getitem (poster_tags g) a) as [pa|]; simpl; [|discriminate].
  destruct (in_band _ _ _); [|intros [= <-]; now left].
  destruct (sub_in _ _ _ _) as [s|]; simpl; [|discriminate].
  destruct (takes_slot g (sub_middles L) m s i) as [[|]|]; simpl;
    [|intros [= <-]; now left|discriminate].
  unfold setitem. destruct (py_index (List.length m) s) as [p|] eqn:Ep;
    [|discriminate].
  intros [= <-]. right. split; [reflexivity|]. exists s, p. auto.
Qed.

Lemma visit_length (g : globals F) (a b subdiv : Z) (L : locals F)
  (m m' : list Z) (i : Z) :
  visit g a b subdiv L m i = Ok m' -> List.length m' = List.length m.
Proof.
  intros Hv. destruct (visit_inv _ _ _ _ _ _ _ _ Hv) as [->|[_ [s [p [_ [_ ->]]]]]];
    [reflexivity | apply set_nth_length].
Qed.

Lemma morphing_all_skipped (g : globals F) (a b subdiv : Z) (L : locals F) :
  py_index (List.length (poster_tags g)) a <> None ->
  setup g a b subdiv = Ok L ->
  (forall i, 0 <= i < Z.of_nat (List.length (poster_tags g)) ->
             eligible g a b L i = false) ->
  morphing g a b subdiv = Ok (morphism L).
Proof.
  intros Ha HL Hskip. unfold morphing. rewrite HL. cbn [bind].
  apply for_each_skip. intros i Hi. apply in_range in Hi.
  apply visit_not_eligible; auto.
  rewrite py_index_nonneg by assumption. discriminate.
Qed.

(** A loop whose body always succeeds and keeps an invariant succeeds. *)
Lemma for_each_total {S A : Type} (P : S -> Prop)
  (body : S -> A -> result S) (xs : list A) :
  (forall s x, In x xs -> P s -> exists s', body s x = Ok s' /\ P s') ->
  forall s, P s -> exists s', for_each body xs s = Ok s' /\ P s'.
Proof.
  induction xs as [|x xs IH]; intros Hb s Hs.
  - exists s. auto.
  - destruct (Hb s x (or_introl eq_refl) Hs) as [s1 [E1 H1]].
    simpl. rewrite E1. cbn [bind]. apply IH; auto.
    intros s0 y Hy. apply Hb. now right.
Qed.

Lemma Forall_set_nth {A : Type} (P : A -> Prop) (n : nat) (x : A) (l : list A) :
  P x -> Forall P l -> Forall P (set_nth n x l).
Proof.
  intros Hx Hl. revert n. induction Hl as [|y l Hy Hl IH]; intros [|n]; simpl;
    constructor; auto.
Qed.

(** With an occupant other than 0 the test of line 49 is the comparison
    of the two distances to the slot's middle. *)
Lemma takes_slot_occupied (g : globals F) (sm : list (list F)) (m : list Z)
  (s i occ : Z) (mid pi pocc : list F) :
  getitem m s = Ok occ -> occ <> 0 ->
  getitem sm (s - 1) = Ok mid ->
  getitem (poster_tags g) i = Ok pi ->
  getitem (poster_tags g) occ = Ok pocc ->
  takes_slot g sm m s i = Ok (fltb (distance mid pi) (distance mid pocc)).
Proof.
  intros Hocc Hnz Hmid Hpi Hpocc. unfold takes_slot.
  rewrite Hocc. cbn [bind].
  replace (occ =? 0) with false by (symmetry; lia).
  rewrite !np_getitem_eq. now rewrite Hmid, Hpi, Hpocc.
Qed.

Lemma takes_slot_unfilled (g : globals F) (sm : list (list F)) (m : list Z)
  (s i : Z) :
  getitem m s = Ok 0 -> takes_slot g sm m s i = Ok true.
Proof. intros Hocc. unfold takes_slot. now rewrite Hocc. Qed.

Lemma setup_inv (g : globals F) (a b subdiv : Z) (L : locals F) :
  setup g a b subdiv = Ok L ->
  py_index (List.length (poster_tags g)) a <> None
  /\ py_index (List.length (poster_tags g)) b <> None
  /\ 1 <= subdiv.
Proof.
  intros HL.
  destruct (py_index (List.length (poster_tags g)) b) eqn:Eb.
  2:{ rewrite setup_index_error_b in HL by auto. discriminate. }
  destruct (py_index (List.length (poster_tags g)) a) eqn:Ea.
  2:{ rewrite setup_index_error_a in HL by congruence. discriminate. }
  destruct (Z_lt_le_dec subdiv 1) as [Hk|Hk].
  - rewrite setup_dims_error in HL; congruence.
  - repeat split; congruence.
Qed.

Lemma morphing_inv (g : globals F) (a b subdiv : Z) (m : list Z) :
  morphing g a b subdiv = Ok m ->
  exists L, setup g a b subdiv = Ok L
    /\ for_each (visit g a b subdiv L)
         (range (Z.of_nat (List.length (poster_tags g)))) (morphism L) = Ok m.
Proof.
  unfold morphing. destruct (setup g a b subdiv) as [L|]; [|discriminate].
  cbn [bind]. eauto.
Qed.

Lemma range_NoDup (n : Z) : NoDup (range n).
Proof.
  unfold range. apply Injective_map_NoDup; [|apply seq_NoDup].
  intros x y. apply Nat2Z.inj.
Qed.

Lemma count_occ_set_nth_other (n : nat) (x v : Z) (l : list Z) :
  v <> x ->
  (count_occ Z.eq_dec (set_nth n x l) v <= count_occ Z.eq_dec l v)%nat.
Proof.
  intros Hv. revert n. induction l as [|y l IH]; intros [|n]; simpl; auto.
  - destruct (Z.eq_dec x v); [congruence|]. destruct (Z.eq_dec y v); lia.
  - specialize (IH n). destruct (Z.eq_dec y v); lia.
Qed.

Lemma count_occ_set_nth_same (n : nat) (x : Z) (l : list Z) :
  (count_occ Z.eq_dec (set_nth n x l) x <= S (count_occ Z.eq_dec l x))%nat.
Proof.
  revert n. induction l as [|y l IH]; intros [|n]; simpl; auto.
  - destruct (Z.eq_dec x x); [|congruence]. destruct (Z.eq_dec y x); lia.
  - specialize (IH n). destruct (Z.eq_dec y x); lia.
Qed.

(** Rows are visited once each, and a visit writes the visited row's own
    number: a number not yet visited and absent stays at most once. *)
Lemma visits_write_once (g : globals F) (a b subdiv : Z) (L : locals F)
  (xs : list Z) :
  NoDup xs ->
  forall m m',
  (forall v, v <> 0 -> v <> a -> v <> b ->
     (count_occ Z.eq_dec m v <= 1)%nat
     /\ (In v xs -> count_occ Z.eq_dec m v = 0%nat)) ->
  for_each (visit g a b subdiv L) xs m = Ok m' ->
  forall v, v <> 0 -> v <> a -> v <> b -> (count_occ Z.eq_dec m' v <= 1)%nat.
Proof.
  induction 1 as [|x xs Hx Hnd IH]; intros m m' Hm; simpl.
  - intros [= <-] v H0 Ha Hb. now apply Hm.
  - destruct (visit g a b subdiv L m x) as [m1|] eqn:Ev; cbn [bind]; [|discriminate].
    apply IH. intros v H0 Ha Hb.
    destruct (Hm v H0 Ha Hb) as [Hle Hzero].
    destruct (visit_inv _ _ _ _ _ _ _ _ Ev) as [->|[_ [s [p [_ [_ ->]]]]]].
    + split; [assumption|]. intros Hv. apply Hzero. now right.
    + destruct (Z.eq_dec v x) as [->|Hvx].
      * split; [|intros Hin; contradiction].
        pose proof (count_occ_set_nth_same p x m).
        rewrite Hzero in * by now left. lia.
      * pose proof (count_occ_set_nth_other p x v m Hvx).
        split; [lia|]. intros Hv. rewrite Hzero in * by now right. lia.
Qed.

Lemma count_occ_initial (a b v : Z) (n : nat) :
  v <> 0 -> v <> a -> v <> b ->
  count_occ Z.eq_dec (a :: repeat 0 n ++ [b]) v = 0%nat.
Proof.
  intros H0 Ha Hb. apply count_occ_not_In. intros [Hin|Hin]; [congruence|].
  apply in_app_or in Hin as [Hin|[Hin|[]]]; [|congruence].
  apply repeat_spec in Hin. congruence.
Qed.

(** C5 (amended).  In the list that [morphing] returns, every number other
    than 0, [a] and [b] occurs at most once: each row is visited once and
    a visit writes the row's own number into at most one position.  (0
    marks the unfilled slots and may repeat.) *)
Theorem candidate_in_one_slot (g : globals F) (a b subdiv : Z) (m : list Z) (v : Z) :
  morphing g a b subdiv = Ok m ->
  v <> 0 -> v <> a -> v <> b ->
  (count_occ Z.eq_dec m v <= 1)%nat.
Proof.
  intros Hm H0 Ha Hb.
  destruct (morphing_inv _ _ _ _ _ Hm) as [L [HL Hloop]].
  destruct (setup_inv _ _ _ _ _ HL) as [Va [Vb Hk]].
  destruct (setup_ok g a b subdiv Va Vb Hk) as [L' [HL' [Hinit _]]].
  assert (L' = L) by congruence. subst L'.
  eapply visits_write_once; eauto using range_NoDup.
  intros w Hw0 Hwa Hwb. rewrite Hinit, count_occ_initial by assumption.
  split; [lia | reflexivity].
Qed.

(** A slot that no eligible row is sent to keeps its initial 0. *)
Lemma slot_untouched (g : globals F) (a b subdiv : Z) (L : locals F)
  (m : list Z) (s : Z) :
  py_index (List.length (poster_tags g)) a <> None ->
  py_index (List.length (poster_tags g)) b <> None ->
  setup g a b subdiv = Ok L ->
  morphing g a b subdiv = Ok m ->
  1 <= s <= subdiv - 1 ->
  (forall i s', 0 <= i < Z.of_nat (List.length (poster_tags g)) ->
     eligible g a b L i = true -> slot_of g a subdiv L i = Ok s' ->
     py_index (Z.to_nat (subdiv + 1)) s' <> Some (Z.to_nat s)) ->
  nth (Z.to_nat s) m 0 = 0.
Proof.
  intros Va Vb HL Hm Hs Hfree.
  destruct (setup_ok g a b subdiv Va Vb) as [L' [HL' [Hinit _]]]; [lia|].
  assert (L' = L) by congruence. subst L'.
  destruct (morphing_inv _ _ _ _ _ Hm) as [L' [HL'' Hloop]].
  assert (L' = L) by congruence. subst L'.
  pose (P := fun m : list Z =>
    List.length m = Z.to_nat (subdiv + 1) /\ nth (Z.to_nat s) m 0 = 0).
  enough (HP : P m) by apply HP.
  eapply (for_each_invariant P); [| |exact Hloop].
  - intros m0 i m1 Hi [Hlen Hnth] Hv. apply in_range in Hi.
    destruct (visit_inv _ _ _ _ _ _ _ _ Hv) as [->|[Hel [s' [p [Hs' [Hp ->]]]]]];
      [split; assumption|].
    split; [now rewrite set_nth_length|].
    rewrite nth_set_nth_other; [assumption|].
    intros E. subst p. rewrite Hlen in Hp. exact (Hfree i s' Hi Hel Hs' Hp).
  - rewrite Hinit. split.
    + simpl. rewrite length_app, repeat_length. simpl. lia.
    + replace (Z.to_nat s) with (S (Z.to_nat (s - 1))) by lia. simpl.
      rewrite app_nth1 by (rewrite repeat_length; lia).
      apply nth_repeat.
Qed.

(** C7 (amended).  Unfilled slots hold the integer 0.  When no row passes
    the guards of the loop, [morphing] returns [a], then [subdiv - 1]
    zeros, then [b]; and in any returned morphism an interior slot that no
    eligible row is sent to holds 0.  The call does not fail because
    slots stay unfilled. *)
Theorem unfilled_slots_hold_zero (g : globals F) (a b subdiv : Z) (L : locals F) :
  py_index (List.length (poster_tags g)) a <> None ->
  py_index (List.length (poster_tags g)) b <> None ->
  setup g a b subdiv = Ok L ->
  ((forall i, 0 <= i < Z.of_nat (List.length (poster_tags g)) ->
      eligible g a b L i = false) ->
   morphing g a b subdiv = Ok (a :: repeat 0 (Z.to_nat (subdiv - 1)) ++ [b]))
  /\ (forall m s,
        morphing g a b subdiv = Ok m ->
        1 <= s <= subdiv - 1 ->
        (forall i s', 0 <= i < Z.of_nat (List.length (poster_tags g)) ->
           eligible g a b L i = true -> slot_of g a subdiv L i = Ok s' ->
           py_index (Z.to_nat (subdiv + 1)) s' <> Some (Z.to_nat s)) ->
        nth (Z.to_nat s) m 0 = 0).
Proof.
  intros Va Vb HL. split.
  - intros Hskip. destruct (setup_inv _ _ _ _ _ HL) as [_ [_ Hk]].
    destruct (setup_ok g a b subdiv Va Vb Hk) as [L' [HL' [Hinit _]]].
    assert (L' = L) by congruence. subst L'.
    rewrite <- Hinit. now apply morphing_all_skipped.
  - intros m s Hm Hs Hfree.
    exact (slot_untouched g a b subdiv L m s Va Vb HL Hm Hs Hfree).
Qed.

(** C4 (amended).  [morphing] fails whenever [a] or [b] is not a subscript
    that the row array accepts, that is outside [-n, n) for [n] rows: row
    [b] is read first, so the exception is that of [b] when [b] is
    refused and that of [a] otherwise; the exception of a refused
    subscript is IndexError, except from 2^63 to 2^64 - 1, where it is
    OverflowError.  When both are accepted and [subdiv < 1], [morphing]
    raises the ValueError of [np.zeros]. *)
Theorem morphing_failures (g : globals F) (a b subdiv : Z) :
  (py_index (List.length (poster_tags g)) b = None ->
   morphing g a b subdiv
   = Err (if (2 ^ 63 <=? b) && (b <? 2 ^ 64) then OverflowError else IndexError))
  /\ (py_index (List.length (poster_tags g)) b <> None ->
      py_index (List.length (poster_tags g)) a = None ->
      morphing g a b subdiv
      = Err (if (2 ^ 63 <=? a) && (a <? 2 ^ 64) then OverflowError else IndexError))
  /\ (py_index (List.length (poster_tags g)) a <> None ->
      py_index (List.length (poster_tags g)) b <> None ->
      subdiv < 1 ->
      morphing g a b subdiv = Err ValueError_dims).
Proof.
  unfold morphing. split; [|split].
  - intros Hb. now rewrite setup_index_error_b.
  - intros Vb Ha. now rewrite setup_index_error_a.
  - intros Va Vb Hk. now rewrite setup_dims_error.
Qed.

End Engine.

(** ** The divisions of line 43 *)

Section Traced.

Context {F : Type} `{Arith F}.





End Traced.

(** ** The engine in exact arithmetic *)

Section Exact.

Lemma Rltb_true (x y : R) : Rltb x y = true <-> (x < y)%R.
Proof. unfold Rltb. destruct (Rlt_dec x y); split; auto; discriminate. Qed.

Lemma in_band_exact (p w l : R) :
  in_band p w l = true <-> (w / 2 < p /\ p < l - w / 2)%R.
Proof.
  unfold in_band, fgtb. cbn [fltb fdiv fsub of_Z Arith_R].
  rewrite andb_true_iff, !Rltb_true. reflexivity.
Qed.

Lemma sub_in_exact (p w l : R) (k : Z) :
  sub_in p w l k = Ok (Int_part ((p - w / 2) / l * IZR k) + 1).
Proof. reflexivity. Qed.

(** In exact arithmetic an eligible projection is sent to an interior slot. *)
Lemma sub_in_exact_interior (p l : R) (k : Z) :
  1 <= k -> in_band p (l / IZR k)%R l = true ->
  exists s, sub_in p (l / IZR k)%R l k = Ok s /\ 1 <= s <= k - 1.
Proof.
  intros Hk Hband. apply in_band_exact in Hband as [Hlo Hhi].
  rewrite sub_in_exact. eexists. split; [reflexivity|].
  assert (HK : (1 <= IZR k)%R) by (apply IZR_le; lia).
  set (K := IZR k) in *.
  set (x := (/ K)%R).
  assert (Hx : (K * x = 1)%R) by (unfold x; field; lra).
  assert (Hx0 : (0 < x)%R) by (apply Rinv_0_lt_compat; lra).
  assert (Hx1 : (x <= 1)%R).
  { rewrite <- Rinv_1. apply Rinv_le_contravar; lra. }
  replace (l / K)%R with (l * x)%R in * by reflexivity.
  assert (Hl : (0 < l)%R).
  { destruct (Rlt_dec 0 l) as [|Hn]; [assumption|]. exfalso.
    assert (l * x >= l)%R by nra. lra. }
  set (y := (/ l)%R).
  assert (Hy : (l * y = 1)%R) by (unfold y; field; lra).
  assert (Hy0 : (0 < y)%R) by (apply Rinv_0_lt_compat; lra).
  set (z := ((p - l * x / 2) / l * K)%R).
  assert (Hz : z = ((p - l * x / 2) * y * K)%R) by reflexivity.
  assert (Hz0 : (0 < z)%R).
  { rewrite Hz. apply Rmult_lt_0_compat; [apply Rmult_lt_0_compat|]; lra. }
  assert (Hz1 : (z < K - 1)%R).
  { rewrite Hz.
    replace (K - 1)%R with ((l - l * x) * y * K)%R by nra.
    apply Rmult_lt_compat_r; [lra|]. apply Rmult_lt_compat_r; lra. }
  destruct (base_Int_part z) as [Hf1 Hf2].
  assert (Int_part z < k - 1).
  { apply lt_IZR. rewrite minus_IZR. fold K. lra. }
  assert (-1 < Int_part z).
  { apply lt_IZR. lra. }
  lia.
Qed.

(** In exact arithmetic [morphing] returns on valid arguments, and the two
    ends of the morphism are [a] and [b]. *)
Lemma morphing_exact (g : globals R) (a b k : Z) :
  0 <= a < Z.of_nat (List.length (poster_tags g)) ->
  0 <= b < Z.of_nat (List.length (poster_tags g)) ->
  1 <= k ->
  exists m, morphing g a b k = Ok m
    /\ List.length m = Z.to_nat (k + 1)
    /\ nth 0 m 0 = a
    /\ nth (Z.to_nat k) m 0 = b.
Proof.
  intros Ha Hb Hk.
  set (n := List.length (poster_tags g)) in *.
  assert (Vall : forall v, 0 <= v < Z.of_nat n -> py_index n v <> None)
    by (intros v Hv; rewrite py_index_nonneg by assumption; discriminate).
  destruct (setup_ok g a b k (Vall a Ha) (Vall b Hb) Hk) as [L [HL [Hm [Hsm Hw]]]].
  unfold morphing. rewrite HL. cbn [bind]. fold n.
  pose (P := fun m : list Z =>
    List.length m = Z.to_nat (k + 1) /\ nth 0 m 0 = a
    /\ nth (Z.to_nat k) m 0 = b /\ Forall (fun v => py_index n v <> None) m).
  destruct (for_each_total P (visit g a b k L) (range (Z.of_nat n))) with (s := morphism L)
    as [m [Em [H1 [H2 [H3 _]]]]].
  - intros m i Hi [P1 [P2 [P3 P4]]]. apply in_range in Hi.
    unfold visit. destruct (is_candidate g a b i); [|exists m; split; [reflexivity|repeat split; auto]].
    destruct (py_index n i) as [q|] eqn:Ei; [|now apply Vall in Hi].
    destruct (np_getitem_some _ _ _ Ei) as [pi [Epi _]]. rewrite Epi. cbn [bind].
    apply np_getitem_ok in Epi.
    destruct (py_index n a) as [q'|] eqn:Ea; [|now apply Vall in Ha].
    destruct (np_getitem_some _ _ _ Ea) as [pa [Epa _]]. rewrite Epa. cbn [bind].
    destruct (in_band _ _ _) eqn:Eband; [|exists m; split; [reflexivity|repeat split; auto]].
    rewrite Hw in Eband |- *. cbn [fdiv of_Z Arith_R] in Eband |- *.
    destruct (sub_in_exact_interior _ _ _ Hk Eband) as [s [Es Hs]].
    rewrite Es. cbn [bind].
    assert (Ems : py_index (List.length m) s = Some (Z.to_nat s))
      by (apply py_index_nonneg; lia).
    destruct (getitem_some _ _ _ Ems) as [occ [Eocc Hocc]].
    assert (Hset : exists m', setitem m s i = Ok m' /\ P m').
    { unfold setitem. rewrite Ems. eexists. split; [reflexivity|].
      repeat split.
      - now rewrite set_nth_length.
      - rewrite nth_set_nth_other by lia. assumption.
      - rewrite nth_set_nth_other by lia. assumption.
      - apply Forall_set_nth; auto. }
    assert (Hkeep : exists m', Ok m = Ok m' /\ P m')
      by (exists m; split; [reflexivity|repeat split; auto]).
    destruct (Z.eq_dec occ 0) as [->|Hnz].
    + rewrite (takes_slot_unfilled _ _ _ _ _ Eocc). cbn [bind]. exact Hset.
    + assert (Esm : py_index (List.length (sub_middles L)) (s - 1) = Some (Z.to_nat (s - 1)))
        by (apply py_index_nonneg; lia).
      destruct (getitem_some _ _ _ Esm) as [mid [Emid _]].
      assert (Vocc : py_index n occ <> None).
      { rewrite Forall_forall in P4. apply P4. eapply nth_error_In; eauto. }
      destruct (py_index n occ) as [r|] eqn:Er; [|congruence].
      destruct (getitem_some _ _ _ Er) as [pocc [Epocc _]].
      rewrite (takes_slot_occupied _ _ _ _ _ _ _ _ _ Eocc Hnz Emid Epi Epocc).
      cbn [bind]. destruct (fltb _ _); assumption.
  - rewrite Hm. repeat split.
    + simpl. rewrite length_app, repeat_length. simpl. lia.
    + replace (Z.to_nat k) with (S (Z.to_nat (k - 1))) by lia. simpl.
      rewrite app_nth2; rewrite repeat_length; [|lia].
      now rewrite Nat.sub_diag.
    + constructor; [now apply Vall|]. apply Forall_app. split.
      * apply Forall_forall. intros v Hv. apply repeat_spec in Hv. subst.
        apply Vall. lia.
      * constructor; [now apply Vall|constructor].
  - exists m. auto.
Qed.
End Exact.

(** ** Binary64: the band of line 45

    The format has 53 bits of precision and least exponent -1074. *)

Lemma fexp_eq (e : Z) : fexp prec emax e = Z.max (e - 53) (-1074).
Proof. reflexivity. Qed.

Lemma Prim2SF_one : Prim2SF 1%float = sf_one.
Proof. vm_compute. reflexivity. Qed.

Lemma Prim2SF_two : Prim2SF 2%float = sf_two.
Proof. vm_compute. reflexivity. Qed.

Lemma Prim2SF_zero : Prim2SF 0%float = S754_zero false.
Proof. vm_compute. reflexivity. Qed.

Lemma div_eucl_exact (a b : Z) : 0 < b -> Z.div_eucl (a * b) b = (a, 0).
Proof.
  intros Hb.
  pose proof (Z_div_mult a b ltac:(lia)) as Hq.
  pose proof (Z_mod_mult a b) as Hr.
  unfold Z.div, Z.modulo in Hq, Hr.
  destruct (Z.div_eucl (a * b) b) as [q r]. simpl in *. congruence.
Qed.

Lemma digits2_pos_bounds (m : positive) :
  2 ^ (Z.pos (digits2_pos m) - 1) <= Z.pos m < 2 ^ Z.pos (digits2_pos m).
Proof.
  induction m as [m IH|m IH|]; cbn [digits2_pos].
  - rewrite Pos2Z.inj_succ.
    replace (Z.succ (Z.pos (digits2_pos m)) - 1) with (Z.succ (Z.pos (digits2_pos m) - 1)) by lia.
    rewrite !Z.pow_succ_r by lia. lia.
  - rewrite Pos2Z.inj_succ.
    replace (Z.succ (Z.pos (digits2_pos m)) - 1) with (Z.succ (Z.pos (digits2_pos m) - 1)) by lia.
    rewrite !Z.pow_succ_r by lia. lia.
  - simpl. lia.
Qed.

Lemma digits2_pos_le (m n : positive) :
  Z.pos m <= Z.pos n -> Z.pos (digits2_pos m) <= Z.pos (digits2_pos n).
Proof.
  intros Hmn.
  destruct (digits2_pos_bounds m) as [Hm _], (digits2_pos_bounds n) as [_ Hn].
  destruct (Z_le_gt_dec (Z.pos (digits2_pos m)) (Z.pos (digits2_pos n))) as [|Hgt];
    [assumption|exfalso].
  assert (2 ^ Z.pos (digits2_pos n) <= 2 ^ (Z.pos (digits2_pos m) - 1))
    by (apply Z.pow_le_mono_r; lia).
  lia.
Qed.

(** A valid finite float has 53 digits, or the least exponent and at most
    53 digits. *)
Lemma bounded_inv (m : positive) (e : Z) :
  bounded prec emax m e = true ->
  e <= 971
  /\ ((Z.pos (digits2_pos m) = 53 /\ -1074 <= e)
      \/ (e = -1074 /\ Z.pos (digits2_pos m) <= 53)).
Proof.
  unfold bounded, canonical_mantissa. rewrite andb_true_iff, fexp_eq.
  intros [Hc He]. apply Z.eqb_eq in Hc. apply Z.leb_le in He.
  change (emax - prec) with 971 in He. lia.
Qed.

(** Rounding a mantissa that is already canonical. *)
Lemma binary_round_aux_canonical (s : bool) (m : positive) (e : Z) :
  Z.pos (digits2_pos m) + e - 53 <= e -> -1074 <= e ->
  (Z.pos (digits2_pos m) = 53 \/ e = -1074) -> e <= 971 ->
  binary_round_aux prec emax s (Z.pos m) e loc_Exact = S754_finite s m e.
Proof.
  intros H1 H2 H3 H4. unfold binary_round_aux, shr_fexp.
  cbn [Zdigits2 shr_record_of_loc]. rewrite fexp_eq.
  replace (Z.max (Z.pos (digits2_pos m) + e - 53) (-1074) - e) with 0 by lia.
  cbn [shr shr_m loc_of_shr_record round_nearest_even Zdigits2 shr_record_of_loc].
  rewrite fexp_eq.
  replace (Z.max (Z.pos (digits2_pos m) + e - 53) (-1074) - e) with 0 by lia.
  cbn [shr shr_m].
  change (emax - prec) with 971.
  now rewrite (proj2 (Z.leb_le e 971) H4).
Qed.

Lemma binary_round_aux_exact (s : bool) (m : positive) (e : Z) :
  bounded prec emax m e = true ->
  binary_round_aux prec emax s (Z.pos m) e loc_Exact = S754_finite s m e.
Proof.
  intros Hb. apply bounded_inv in Hb.
  apply binary_round_aux_canonical; lia.
Qed.

(** Rounding an even mantissa one bit too long. *)
Lemma binary_round_aux_shift (s : bool) (m : positive) (e : Z) :
  Z.pos (digits2_pos m) = 53 -> -1074 <= e + 1 <= 971 ->
  binary_round_aux prec emax s (Z.pos m~0) e loc_Exact = S754_finite s m (e + 1).
Proof.
  intros Hd He. unfold binary_round_aux, shr_fexp.
  cbn [Zdigits2 digits2_pos shr_record_of_loc]. rewrite fexp_eq, Pos2Z.inj_succ, Hd.
  replace (Z.max (Z.succ 53 + e - 53) (-1074) - e) with 1 by lia.
  cbn [shr iter_pos shr_1 orb shr_m loc_of_shr_record round_nearest_even Zdigits2
       shr_record_of_loc].
  rewrite fexp_eq, Hd.
  replace (Z.max (53 + (e + 1) - 53) (-1074) - (e + 1)) with 0 by lia.
  cbn [shr shr_m].
  change (emax - prec) with 971.
  now rewrite (proj2 (Z.leb_le (e + 1) 971)) by lia.
Qed.

(** The quotient computed for a division by 2^52 * 2^e2. *)
Lemma SFdiv_core_shift (m : positive) (e e2 e' : Z) (n : positive) :
  Z.min (fexp prec emax (Z.pos (digits2_pos m) + e - (53 + e2))) (e - e2) = e' ->
  e - e2 - e' = Z.pos n ->
  SFdiv_core_binary prec emax (Z.pos m) e 4503599627370496 e2
  = (let '(q, r) := Z.div_eucl (Z.pos m * 2 ^ Z.pos n) 4503599627370496 in
     (q, e', new_location 4503599627370496 r)).
Proof.
  intros He' Hs. unfold SFdiv_core_binary.
  change (Zdigits2 4503599627370496) with 53. cbn [Zdigits2].
  rewrite He', Hs. cbv zeta. rewrite Z.shiftl_mul_pow2 by lia. reflexivity.
Qed.

(** Division by 1 is exact. *)
Lemma SFdiv_one (x : spec_float) :
  valid_binary x = true -> SF64div x sf_one = x.
Proof.
  destruct x as [s|s| |s m e]; try reflexivity.
  - simpl. now destruct s.
  - simpl. now destruct s.
  - intros Hv. cbn [valid_binary] in Hv. pose proof Hv as Hb.
    apply bounded_inv in Hb as [He Hb].
    unfold SF64div, SFdiv, sf_one. rewrite xorb_false_r.
    destruct (Z.eq_dec e (-1074)) as [->|Hn].
    + rewrite (SFdiv_core_shift m (-1074) (-52) (-1074) 52);
        [|rewrite fexp_eq; lia | reflexivity].
      change (2 ^ 52) with 4503599627370496.
      rewrite div_eucl_exact by lia.
      change (new_location 4503599627370496 0) with loc_Exact.
      now apply binary_round_aux_exact.
    + assert (Hd : Z.pos (digits2_pos m) = 53) by lia.
      rewrite (SFdiv_core_shift m e (-52) (e - 1) 53);
        [|rewrite fexp_eq; lia | lia].
      replace (Z.pos m * 2 ^ 53) with (Z.pos m~0 * 4503599627370496) by lia.
      rewrite div_eucl_exact by lia.
      change (new_location 4503599627370496 0) with loc_Exact.
      rewrite binary_round_aux_shift by lia.
      f_equal. lia.
Qed.

(** Halving: exact above the least exponent. *)
Lemma SFdiv_two_normal (s : bool) (m : positive) (e : Z) :
  bounded prec emax m e = true -> -1074 < e ->
  SF64div (S754_finite s m e) sf_two = S754_finite s m (e - 1).
Proof.
  intros Hb Hn. apply bounded_inv in Hb as [He Hb].
  assert (Hd : Z.pos (digits2_pos m) = 53) by lia.
  unfold SF64div, SFdiv, sf_two. rewrite xorb_false_r.
  destruct (Z.eq_dec e (-1073)) as [->|Hn'].
  - rewrite (SFdiv_core_shift m (-1073) (-51) (-1074) 52);
      [|rewrite fexp_eq; lia | reflexivity].
    change (2 ^ 52) with 4503599627370496.
    rewrite div_eucl_exact by lia.
    change (new_location 4503599627370496 0) with loc_Exact.
    apply binary_round_aux_canonical; lia.
  - rewrite (SFdiv_core_shift m e (-51) (e - 2) 53);
      [|rewrite fexp_eq; lia | lia].
    replace (Z.pos m * 2 ^ 53) with (Z.pos m~0 * 4503599627370496) by lia.
    rewrite div_eucl_exact by lia.
    change (new_location 4503599627370496 0) with loc_Exact.
    rewrite binary_round_aux_shift by lia.
    f_equal. lia.
Qed.

(** Rounding to nearest, ties to even, at the least exponent. *)
Lemma binary_round_aux_tie (s : bool) (p : positive) :
  Z.pos (digits2_pos p~1) <= 53 ->
  binary_round_aux prec emax s (Z.pos p) (-1074) (loc_Inexact Eq)
  = S754_finite s (if Z.even (Z.pos p) then p else Pos.succ p) (-1074).
Proof.
  intros Hd. unfold binary_round_aux, shr_fexp.
  cbn [Zdigits2 shr_record_of_loc]. rewrite fexp_eq.
  assert (Hp : Z.pos (digits2_pos p) <= 53).
  { etransitivity; [apply (digits2_pos_le p p~1); lia | exact Hd]. }
  replace (Z.max (Z.pos (digits2_pos p) + -1074 - 53) (-1074) - -1074) with 0 by lia.
  cbn [shr shr_m loc_of_shr_record round_nearest_even].
  set (q := if Z.even (Z.pos p) then p else Pos.succ p).
  replace (if Z.even (Z.pos p) then Z.pos p else Z.pos p + 1) with (Z.pos q)
    by (unfold q; destruct (Z.even (Z.pos p)); lia).
  assert (Hq : Z.pos (digits2_pos q) <= 53).
  { etransitivity; [apply (digits2_pos_le q p~1)| exact Hd].
    unfold q. destruct (Z.even (Z.pos p)); lia. }
  cbn [Zdigits2 shr_record_of_loc]. rewrite fexp_eq.
  replace (Z.max (Z.pos (digits2_pos q) + -1074 - 53) (-1074) - -1074) with 0 by lia.
  reflexivity.
Qed.

(** Halving at the least exponent: the last bit is rounded. *)
Lemma SFdiv_two_subnormal (s : bool) (m : positive) :
  bounded prec emax m (-1074) = true ->
  SF64div (S754_finite s m (-1074)) sf_two
  = match half_mantissa m with
    | Some q => S754_finite s q (-1074)
    | None => S754_zero s
    end.
Proof.
  intros Hb. apply bounded_inv in Hb as [_ Hb].
  assert (Hd : Z.pos (digits2_pos m) <= 53) by lia.
  unfold SF64div, SFdiv, sf_two. rewrite xorb_false_r.
  rewrite (SFdiv_core_shift m (-1074) (-51) (-1074) 51);
    [|rewrite fexp_eq; lia | reflexivity].
  destruct m as [p|p|]; cbn [half_mantissa].
  - replace (Z.div_eucl (Z.pos p~1 * 2 ^ 51) 4503599627370496)
      with (Z.pos p, 2251799813685248).
    2:{ symmetry.
        pose proof (Z.div_mod (Z.pos p~1 * 2 ^ 51) 4503599627370496 ltac:(lia)) as Hdm.
        pose proof (Z.mod_pos_bound (Z.pos p~1 * 2 ^ 51) 4503599627370496 ltac:(lia)) as Hr.
        unfold Z.div, Z.modulo in Hdm, Hr.
        destruct (Z.div_eucl (Z.pos p~1 * 2 ^ 51) 4503599627370496) as [q r].
        cbn [fst snd] in Hdm, Hr. change (2 ^ 51) with 2251799813685248 in Hdm.
        f_equal; lia. }
    change (new_location 4503599627370496 2251799813685248) with (loc_Inexact Eq).
    now apply binary_round_aux_tie.
  - replace (Z.pos p~0 * 2 ^ 51) with (Z.pos p * 4503599627370496) by lia.
    rewrite div_eucl_exact by lia.
    change (new_location 4503599627370496 0) with loc_Exact.
    apply binary_round_aux_canonical; try lia.
    pose proof (digits2_pos_le p p~0 ltac:(lia)). lia.
  - reflexivity.
Qed.

(** Subtraction of the half. *)
Lemma SFsub_half_normal (s : bool) (m : positive) (e : Z) :
  bounded prec emax m e = true -> -1074 < e ->
  SF64sub (S754_finite s m e) (S754_finite s m (e - 1)) = S754_finite s m (e - 1).
Proof.
  intros Hb Hn. apply bounded_inv in Hb as [He Hb].
  assert (Hd : Z.pos (digits2_pos m) = 53) by lia.
  unfold SF64sub, SFsub.
  replace (Z.min e (e - 1)) with (e - 1) by lia.
  unfold shl_align.
  replace (e - 1 - e) with (-1) by lia.
  replace (e - 1 - (e - 1)) with 0 by lia.
  cbn [fst Pos.iter].
  replace (cond_Zopp s (Z.pos m~0) - cond_Zopp s (Z.pos m))
    with (cond_Zopp s (Z.pos m)) by (destruct s; cbn [cond_Zopp]; lia).
  assert (Hr : forall s', binary_round prec emax s' m (e - 1) = S754_finite s' m (e - 1)).
  { intros s'. unfold binary_round, shl_align. rewrite fexp_eq, Hd.
    replace (Z.max (53 + (e - 1) - 53) (-1074) - (e - 1)) with 0 by lia.
    apply binary_round_aux_canonical; lia. }
  destruct s; cbn [cond_Zopp Z.opp binary_normalize]; apply Hr.
Qed.

Lemma SFsub_subnormal (s : bool) (m q r : positive) :
  Z.pos m = Z.pos q + Z.pos r ->
  Z.pos (digits2_pos m) <= 53 ->
  SF64sub (S754_finite s m (-1074)) (S754_finite s q (-1074))
  = S754_finite s r (-1074).
Proof.
  intros Hm Hd. unfold SF64sub, SFsub.
  change (Z.min (-1074) (-1074)) with (-1074).
  unfold shl_align. change (-1074 - -1074) with 0. cbn [fst].
  replace (cond_Zopp s (Z.pos m) - cond_Zopp s (Z.pos q))
    with (cond_Zopp s (Z.pos r)) by (destruct s; cbn [cond_Zopp]; lia).
  assert (Hdr : Z.pos (digits2_pos r) <= 53).
  { etransitivity; [apply (digits2_pos_le r m); lia | exact Hd]. }
  assert (Hr : forall s', binary_round prec emax s' r (-1074) = S754_finite s' r (-1074)).
  { intros s'. unfold binary_round, shl_align. rewrite fexp_eq.
    replace (Z.max (Z.pos (digits2_pos r) + -1074 - 53) (-1074) - -1074) with 0 by lia.
    apply binary_round_aux_canonical; lia. }
  destruct s; cbn [cond_Zopp Z.opp binary_normalize]; apply Hr.
Qed.

(** The order on floats. *)
Lemma SFltb_asym (x y : spec_float) : SFltb x y = true -> SFltb y x = false.
Proof.
  unfold SFltb, SFcompare.
  destruct x as [s|s| |s m e], y as [s'|s'| |s' m' e'];
    try destruct s; try destruct s'; try reflexivity; try discriminate.
  - rewrite (Z.compare_antisym e e'), !Pos.compare_cont_spec, (Pos.compare_antisym m m').
    cbn [Pos.switch_Eq].
    destruct (e ?= e'); cbn [CompOpp]; try discriminate; try reflexivity.
    destruct (m ?= m')%positive; cbn [CompOpp]; try discriminate; reflexivity.
  - rewrite (Z.compare_antisym e e'), !Pos.compare_cont_spec, (Pos.compare_antisym m m').
    cbn [Pos.switch_Eq].
    destruct (e ?= e'); cbn [CompOpp]; try discriminate; try reflexivity.
    destruct (m ?= m')%positive; cbn [CompOpp]; try discriminate; reflexivity.
Qed.

Lemma SFltb_same_empty (x p : spec_float) : SFltb x p && SFltb p x = false.
Proof.
  destruct (SFltb x p) eqn:E; [|reflexivity]. now apply SFltb_asym.
Qed.

(** No float lies strictly between two zeros. *)
Lemma SFltb_zeros_empty (s s' : bool) (p : spec_float) :
  SFltb (S754_zero s) p && SFltb p (S754_zero s') = false.
Proof.
  destruct p as [t|t| |t m e]; try destruct t; reflexivity.
Qed.

(** No valid float lies strictly between two floats of the least exponent
    whose mantissas differ by at most one. *)
Lemma SFltb_adjacent_empty (s : bool) (a b : positive) (p : spec_float) :
  valid_binary p = true ->
  Z.pos b <= Z.pos a + 1 -> Z.pos a <= Z.pos b + 1 ->
  SFltb (S754_finite s a (-1074)) p && SFltb p (S754_finite s b (-1074)) = false.
Proof.
  intros Hv Hab Hba.
  destruct p as [t|t| |t m e]; try (destruct s, t; reflexivity);
    try (destruct s; reflexivity).
  cbn [valid_binary] in Hv. apply bounded_inv in Hv as [_ Hv].
  assert (He : -1074 <= e) by lia.
  unfold SFltb, SFcompare.
  rewrite (Z.compare_antisym e (-1074)), !Pos.compare_cont_spec. cbn [Pos.switch_Eq].
  destruct s, t; try reflexivity;
    (destruct (e ?= -1074) eqn:Ec;
       [ | assert (e < -1074) by exact Ec; lia | cbn [CompOpp]; try reflexivity ]);
    cbn [CompOpp];
    destruct (a ?= m)%positive eqn:E1; cbn [CompOpp Pos.switch_Eq]; try reflexivity;
    destruct (m ?= b)%positive eqn:E2; cbn [CompOpp Pos.switch_Eq]; try reflexivity;
    first [ pose proof (proj1 (Pos.compare_gt_iff _ _) E1);
            pose proof (proj1 (Pos.compare_gt_iff _ _) E2); lia
          | pose proof (proj1 (Pos.compare_lt_iff _ _) E1);
            pose proof (proj1 (Pos.compare_lt_iff _ _) E2); lia ].
Qed.

(** No valid float lies strictly between zero and the least float. *)
Lemma SFltb_least_empty (s : bool) (p : spec_float) :
  valid_binary p = true ->
  SFltb (S754_zero s) p && SFltb p (S754_finite s 1 (-1074)) = false.
Proof.
  intros Hv.
  destruct p as [t|t| |t m e]; try (destruct s, t; reflexivity);
    try (destruct s; reflexivity).
  cbn [valid_binary] in Hv. apply bounded_inv in Hv as [_ Hv].
  assert (He : -1074 <= e) by lia.
  unfold SFltb, SFcompare.
  destruct s, t; try reflexivity.
  rewrite !Pos.compare_cont_spec.
  destruct (e ?= -1074) eqn:Ec; try reflexivity.
  - destruct (m ?= 1)%positive eqn:E1; try reflexivity.
    pose proof (proj1 (Pos.compare_lt_iff _ _) E1). lia.
  - assert (e < -1074) by exact Ec. lia.
Qed.

(** With the width of the band equal to the length of the segment, no
    float is above half the length and below the length less its half. *)
Lemma band_one_empty_spec (x p : spec_float) :
  valid_binary x = true -> valid_binary p = true ->
  SFltb (SF64div (SF64div x sf_one) sf_two) p
  && SFltb p (SF64sub x (SF64div (SF64div x sf_one) sf_two)) = false.
Proof.
  intros Hx Hp. rewrite SFdiv_one by assumption.
  destruct x as [s|s| |s m e].
  - destruct s; apply SFltb_zeros_empty.
  - destruct s; cbn; destruct p as [t|t| |t m e]; try destruct t; reflexivity.
  - reflexivity.
  - cbn [valid_binary] in Hx. destruct (Z.eq_dec e (-1074)) as [->|Hn].
    + rewrite SFdiv_two_subnormal by assumption.
      pose proof Hx as Hb. apply bounded_inv in Hb as [_ Hb].
      assert (Hd : Z.pos (digits2_pos m) <= 53) by lia.
      destruct m as [q|q|]; cbn [half_mantissa].
      * rewrite (SFsub_subnormal s q~1 _ (if Z.even (Z.pos q) then Pos.succ q else q));
          [| destruct (Z.even (Z.pos q)); lia | assumption].
        apply SFltb_adjacent_empty; [assumption | |]; destruct (Z.even (Z.pos q)); lia.
      * rewrite (SFsub_subnormal s q~0 q q); [| lia | assumption].
        apply SFltb_same_empty.
      * apply SFltb_least_empty. assumption.
    + assert (-1074 < e) by (apply bounded_inv in Hx; lia).
      rewrite SFdiv_two_normal, SFsub_half_normal by assumption.
      apply SFltb_same_empty.
Qed.

(** With a segment of length zero the band is empty whatever the number
    of subdivisions. *)
Lemma band_zero_empty_spec (y p : spec_float) :
  SFltb (SF64div (SF64div (S754_zero false) y) sf_two) p
  && SFltb p (SF64sub (S754_zero false)
                      (SF64div (SF64div (S754_zero false) y) sf_two)) = false.
Proof.
  destruct y as [s|s| |s m e]; try destruct s;
    destruct p as [t|t| |t m' e']; try destruct t; reflexivity.
Qed.


(** The band of line 45 on binary64, for one subdivision and for a
    segment of length zero. *)
Lemma in_band_one_subdivision (l p : float) :
  in_band p (fdiv l (of_Z 1)) l = false.
Proof.
  unfold in_band, fgtb. cbn [fltb fdiv fsub of_Z Arith_float].
  change (float_of_Z 1) with 1%float. change (float_of_Z 2) with 2%float.
  rewrite !ltb_spec, sub_spec, !div_spec, Prim2SF_one, Prim2SF_two.
  apply band_one_empty_spec; apply Prim2SF_valid.
Qed.

Lemma in_band_zero_norm (y p : float) :
  in_band p (fdiv 0%float y) 0%float = false.
Proof.
  unfold in_band, fgtb. cbn [fltb fdiv fsub of_Z Arith_float].
  change (float_of_Z 2) with 2%float.
  rewrite !ltb_spec, sub_spec, !div_spec, Prim2SF_zero, Prim2SF_two.
  apply band_zero_empty_spec.
Qed.


(** C6.  With one subdivision the band of line 45 is empty on binary64:
    no float is above [seg_norm/1/2] and below [seg_norm - seg_norm/1/2],
    whatever [seg_norm] is.  So no row is assigned and [morphing(a, b, 1)]
    returns [[a, b]] for all rows [a] and [b] of the corpus (whether or
    not they differ, and whatever their vectors). *)
Theorem morphing_one_subdivision (g : globals float) (a b : Z) :
  0 <= a < Z.of_nat (List.length (poster_tags g)) ->
  0 <= b < Z.of_nat (List.length (poster_tags g)) ->
  morphing g a b 1 = Ok [a; b].
Proof.
  intros Ha Hb.
  assert (Va : py_index (List.length (poster_tags g)) a <> None)
    by (rewrite py_index_nonneg by assumption; discriminate).
  assert (Vb : py_index (List.length (poster_tags g)) b <> None)
    by (rewrite py_index_nonneg by assumption; discriminate).
  destruct (setup_ok g a b 1 Va Vb) as [L [HL [Hm [_ Hw]]]]; [lia|].
  rewrite (morphing_all_skipped g a b 1 L Va HL).
  - now rewrite Hm.
  - intros i _. unfold eligible. rewrite Hw, in_band_one_subdivision.
    apply andb_false_r.
Qed.


(** ** Runs on binary64 *)

Import Runs.

Ltac run := vm_compute; reflexivity.

(** C8.  From the two entries "5.jpg" (catgirl, 1.0) and "9.jpg"
    (robot, 0.5) with the table catgirl -> 0, robot -> 1, the loader builds
    ten rows; row 5 is [1.0, 0.0], row 9 is [0.0, 0.5]; every other row
    is zero and its number is not in [index_posters]. *)
Theorem load_two_posters :
  load_posters Runs.tags two_posters = Ok two_corpus
  /\ List.length (poster_tags two_corpus) = 10%nat
  /\ getitem (poster_tags two_corpus) 5 = Ok [1.0; 0.0]%float
  /\ getitem (poster_tags two_corpus) 9 = Ok [0.0; 0.5]%float
  /\ forall i, 0 <= i < 10 -> i <> 5 -> i <> 9 ->
       getitem (poster_tags two_corpus) i = Ok [0.0; 0.0]%float
       /\ existsb (Z.eqb i) (index_posters two_corpus) = false.
Proof.
  split; [run|]. split; [run|]. split; [run|]. split; [run|].
  intros i Hi H5 H9.
  assert (Hc : i = 0 \/ i = 1 \/ i = 2 \/ i = 3 \/ i = 4
               \/ i = 6 \/ i = 7 \/ i = 8) by lia.
  decompose [or] Hc; subst i; split; run.
Qed.

(** [int] on some literals: whitespace, signs, underscores, and the
    characters U+000B, U+001C and U+00A0 in front of a digit. *)
Example int_literals :
  int_of_string " 42 " = Ok 42
  /\ int_of_string "-1" = Ok (-1)
  /\ int_of_string "+7" = Ok 7
  /\ int_of_string "4_0" = Ok 40
  /\ int_of_string "4__0" = Err ValueError_int
  /\ int_of_string "_4" = Err ValueError_int
  /\ int_of_string "4_" = Err ValueError_int
  /\ int_of_string "+ 4" = Err ValueError_int
  /\ int_of_string "4 2" = Err ValueError_int
  /\ int_of_string "" = Err ValueError_int
  /\ int_of_string (String (ascii_of_nat 11) "4") = Ok 4
  /\ int_of_string (String (ascii_of_nat 28) "4") = Err ValueError_int
  /\ int_of_string (String (ascii_of_nat 160) "4") = Ok 4.
Proof. repeat split; run. Qed.

(** A key that starts with the separator U+001C does not load. *)
Example separator_key_fails :
  load_posters Runs.tags
    [ (String (ascii_of_nat 28) "4.jpg", [("catgirl"%string, 1.0%float)]) ]
  = Err ValueError_int.
Proof. run. Qed.

(** C9, counterexample.  The prefix of the key "-1.jpg" is not a run of
    decimal digits, and the loader does not fail on it: [int] returns -1,
    and the tags of that entry are stored in the last row. *)
Lemma negative_key_loads :
  nonneg_decimal (key_prefix "-1.jpg") = false
  /\ load_posters Runs.tags negative_key_posters
     = Ok {| nb_tags := 2;
             index_posters := [-1; 9];
             poster_tags := [ [0; 0]; [0; 0]; [0; 0]; [0; 0]; [0; 0]; [0; 0];
                              [0; 0]; [0; 0]; [0; 0]; [1; 0.5] ]%float |}.
Proof. split; run. Qed.

(** C1, failing input.  With items 1, 2 and 0 at 0.0, 0.8333333333333333
    and 1.0, [morphing(1, 0, 3)] sends item 2 to slot 3, finds 0 there (the
    identifier of [b]) and stores 2: the last position of the result is
    not [b]. *)
Theorem endpoint_overwritten :
  load_posters one_tag rounding_posters_zero = Ok rounding_corpus_zero
  /\ morphing rounding_corpus_zero 1 0 3 = Ok [1; 0; 0; 2].
Proof. split; run. Qed.

(** C2, failing input.  With items 1, 2 and 3 at 0.0, 0.8333333333333333
    and 1.0 and three subdivisions, item 2 passes the test of line 45 and
    its slot index is 3, not 1 or 2; [sub_middles] has two rows, and the
    call ends in IndexError. *)
Theorem slot_index_reaches_subdiv :
  load_posters one_tag rounding_posters = Ok rounding_corpus
  /\ exists L, setup rounding_corpus 1 3 3 = Ok L
       /\ eligible rounding_corpus 1 3 L 2 = true
       /\ slot_of rounding_corpus 1 3 L 2 = Ok 3
       /\ List.length (sub_middles L) = 2%nat
       /\ morphing rounding_corpus 1 3 3 = Err IndexError.
Proof. split; [run|]. eexists. split; [run|]. repeat split; run. Qed.

(** C3, failing input.  Items 1 and 2 at 0 and 1, two subdivisions: the
    one slot has its middle at 0.5.  Item 0, at 0.5, is visited first and
    stored in the slot; item 3, at 0.625, is sent to the same slot, is not
    nearer to the middle, and replaces item 0 all the same, because the
    slot reads 0. *)
Theorem zero_occupant_overwritten :
  load_posters one_tag sentinel_posters = Ok sentinel_corpus
  /\ exists L, setup sentinel_corpus 1 2 2 = Ok L
       /\ eligible sentinel_corpus 1 2 L 0 = true
       /\ slot_of sentinel_corpus 1 2 L 0 = Ok 1
       /\ visit sentinel_corpus 1 2 2 L (morphism L) 0 = Ok [1; 0; 2]
       /\ eligible sentinel_corpus 1 2 L 3 = true
       /\ slot_of sentinel_corpus 1 2 L 3 = Ok 1
       /\ getitem (sub_middles L) 0 = Ok [0.5]%float
       /\ fltb (distance [0.5]%float [0.625]%float)
               (distance [0.5]%float [0.5]%float) = false
       /\ visit sentinel_corpus 1 2 2 L [1; 0; 2] 3 = Ok [1; 3; 2]
       /\ morphing sentinel_corpus 1 2 2 = Ok [1; 3; 2].
Proof. split; [run|]. eexists. split; [run|]. repeat split; run. Qed.

(** The same points with the items numbered 4 and 5: the nearer item
    keeps the slot. *)
Example nearer_occupant_kept :
  load_posters one_tag nearer_posters = Ok nearer_corpus
  /\ morphing nearer_corpus 1 2 2 = Ok [1; 4; 2].
Proof. split; run. Qed.

(** C4, counterexample.  Equal endpoints are not rejected:
    [morphing(5, 5, 4)] returns. *)
Lemma equal_endpoints_return :
  load_posters Runs.tags two_posters = Ok two_corpus
  /\ 0 <= 5 < Z.of_nat (List.length (poster_tags two_corpus))
  /\ morphing two_corpus 5 5 4 = Ok [5; 0; 0; 0; 5].
Proof. split; [run|]. split; [simpl; lia | run]. Qed.

(** The two failures of C4 on a run, and a negative subscript that the
    row array accepts. *)
Example morphing_failures_run :
  morphing two_corpus 5 10 4 = Err IndexError
  /\ morphing two_corpus 10 5 4 = Err IndexError
  /\ morphing two_corpus 5 (-11) 4 = Err IndexError
  /\ morphing two_corpus 5 (2 ^ 63) 4 = Err OverflowError
  /\ morphing two_corpus 5 (2 ^ 64) 4 = Err IndexError
  /\ morphing two_corpus (2 ^ 63) 10 4 = Err IndexError
  /\ morphing two_corpus 5 9 0 = Err ValueError_dims
  /\ morphing two_corpus (-1) 5 1 = Ok [-1; 5].
Proof. repeat split; run. Qed.

(** C5, counterexample.  Item 0 exists, is neither [a] nor [b], and its
    number occurs twice in the result. *)
Lemma zero_repeats :
  load_posters one_tag idle_posters = Ok idle_corpus
  /\ existsb (Z.eqb 0) (index_posters idle_corpus) = true
  /\ 0 <> 1 /\ 0 <> 2
  /\ morphing idle_corpus 1 2 3 = Ok [1; 0; 0; 2]
  /\ count_occ Z.eq_dec [1; 0; 0; 2] 0 = 2%nat.
Proof. repeat split; try run; lia. Qed.

Lemma candidate_in_one_slot_witness :
  morphing nearer_corpus 1 2 2 = Ok [1; 4; 2]
  /\ (count_occ Z.eq_dec [1; 4; 2]%Z 4%Z <= 1)%nat.
Proof.
  split; [run|].
  apply (candidate_in_one_slot nearer_corpus 1 2 2 [1; 4; 2] 4);
    [run | lia | lia | lia].
Defined.

(** C6 on binary64, on a run. *)
Example morphing_one_subdivision_run :
  morphing rounding_corpus 1 3 1 = Ok [1; 3]
  /\ morphing sentinel_corpus 1 2 1 = Ok [1; 2].
Proof. split; run. Qed.

Lemma morphing_one_subdivision_witness :
  0 <= 1 < Z.of_nat (List.length (poster_tags rounding_corpus))
  /\ 0 <= 3 < Z.of_nat (List.length (poster_tags rounding_corpus))
  /\ morphing rounding_corpus 1 3 1 = Ok [1; 3].
Proof.
  split; [simpl; lia|]. split; [simpl; lia|].
  apply (morphing_one_subdivision rounding_corpus 1 3); simpl; lia.
Defined.

(** C7, counterexample.  Item 0 is an item of the corpus, it is not
    eligible, and the two unfilled slots of the result hold its number. *)
Lemma unfilled_is_identifier_zero :
  load_posters one_tag idle_posters = Ok idle_corpus
  /\ existsb (Z.eqb 0) (index_posters idle_corpus) = true
  /\ setup idle_corpus 1 2 3 = Ok idle_locals
  /\ eligible idle_corpus 1 2 idle_locals 0 = false
  /\ morphing idle_corpus 1 2 3 = Ok [1; 0; 0; 2].
Proof. repeat split; run. Qed.

Lemma unfilled_slots_hold_zero_witness :
  py_index (List.length (poster_tags idle_corpus)) 1 <> None
  /\ py_index (List.length (poster_tags idle_corpus)) 2 <> None
  /\ setup idle_corpus 1 2 3 = Ok idle_locals
  /\ morphing idle_corpus 1 2 3 = Ok [1; 0; 0; 2].
Proof.
  assert (Va : py_index (List.length (poster_tags idle_corpus)) 1 <> None)
    by (vm_compute; discriminate).
  assert (Vb : py_index (List.length (poster_tags idle_corpus)) 2 <> None)
    by (vm_compute; discriminate).
  assert (HL : setup idle_corpus 1 2 3 = Ok idle_locals) by run.
  split; [exact Va|]. split; [exact Vb|]. split; [exact HL|].
  apply (proj1 (unfilled_slots_hold_zero idle_corpus 1 2 3 idle_locals Va Vb HL)).
  intros i Hi.
  assert (Hc : i = 0 \/ i = 1 \/ i = 2) by (simpl in Hi; lia).
  decompose [or] Hc; subst i; run.
Defined.



(** Distinct vectors whose distance underflows to 0: the one division is
    1 by 0, its quotient is the infinity, and the call returns all the
    same. *)
Example division_by_zero_underflow :
  load_posters one_tag underflow_posters = Ok underflow_corpus
  /\ morphing_traced underflow_corpus 1 2 4
     = Ok ([1; 0; 0; 0; 2], [(1, 0)]%float)
  /\ (1 / 0)%float = infinity
  /\ morphing underflow_corpus 1 2 4 = Ok [1; 0; 0; 0; 2].
Proof. repeat split; run. Qed.

(** * Further properties of the code *)

(** ** The loader: shape, cells, failures *)

Lemma for_each_app {S A : Type} (body : S -> A -> result S) (xs ys : list A) (s : S) :
  for_each body (xs ++ ys) s = bind (for_each body xs s) (for_each body ys).
Proof.
  revert s. induction xs as [|x xs IH]; intros s; simpl; [reflexivity|].
  destruct (body s x); simpl; auto.
Qed.

Lemma set_nth_middle {A : Type} (done rest : list A) (x y : A) :
  set_nth (List.length done) y (done ++ x :: rest) = done ++ y :: rest.
Proof. induction done as [|d done IH]; simpl; congruence. Qed.

Lemma fold_max_ge (l : list Z) (x : Z) :
  x <= fold_left Z.max l x /\ forall y, In y l -> y <= fold_left Z.max l x.
Proof.
  revert x. induction l as [|z l IH]; intros x; simpl.
  - split; [lia | intros y []].
  - destruct (IH (Z.max x z)) as [H1 H2]. split; [lia|].
    intros y [<-|Hy]; [lia | auto].
Qed.

Lemma py_max_ge (l : list Z) (m : Z) :
  py_max l = Ok m -> forall y, In y l -> y <= m.
Proof.
  destruct l as [|x l]; simpl; [discriminate|].
  destruct (fold_max_ge l x) as [H1 H2].
  intros [= <-] y [<-|Hy]; auto.
Qed.

Lemma nth_error_set_nth {A : Type} (l : list A) (n p : nat) (x : A) :
  nth_error (set_nth n x l) p
  = if (p =? n)%nat then (if (n <? List.length l)%nat then Some x else None)
    else nth_error l p.
Proof.
  revert n p. induction l as [|y l IH]; intros n p.
  - destruct n, p; simpl; try reflexivity. now destruct (p =? n)%nat.
  - destruct n as [|n], p as [|p]; simpl; try reflexivity.
    rewrite IH. destruct (p =? n)%nat; reflexivity.
Qed.

Section LoaderFacts.
Context {F : Type} `{Arith F}.

(** The first loop leaves in [index_posters] the integers of the keys, in
    the order of the dictionary. *)
Lemma index_loop_keys (l : posters_t F) (done rest : list Z) (st : list Z * Z) :
  List.length rest = List.length l ->
  for_each index_step l (done ++ rest, Z.of_nat (List.length done)) = Ok st ->
  exists zs, Forall2 (fun e z => py_int (key_prefix (fst e)) = Some z) l zs
             /\ fst st = done ++ zs.
Proof.
  revert done rest. induction l as [|entry l IH]; intros done rest Hlen.
  - destruct rest; [|discriminate]. simpl. intros [= <-].
    exists []. split; [constructor | reflexivity].
  - destruct rest as [|r rest]; [discriminate|]. injection Hlen as Hlen.
    change (for_each index_step (entry :: l) (done ++ r :: rest, Z.of_nat (List.length done)))
      with (bind (index_step (done ++ r :: rest, Z.of_nat (List.length done)) entry)
                 (for_each index_step l)).
    unfold index_step, key_index. simpl fst; simpl snd.
    destruct (py_int (key_prefix (fst entry))) as [z|] eqn:E; simpl; [|discriminate].
    unfold setitem. rewrite py_index_nonneg
      by (rewrite length_app; simpl; lia).
    rewrite Nat2Z.id, set_nth_middle. cbn [bind].
    replace (done ++ z :: rest) with ((done ++ [z]) ++ rest)
      by (now rewrite <- app_assoc).
    replace (Z.of_nat (List.length done) + 1)
      with (Z.of_nat (List.length (done ++ [z])))
      by (rewrite length_app; simpl; lia).
    intros Hloop. destruct (IH _ _ Hlen Hloop) as [zs [Hzs Hst]].
    exists (z :: zs). split; [now constructor|].
    now rewrite Hst, <- app_assoc.
Qed.

Lemma index_loop_result (posters : posters_t F) (st : list Z * Z) :
  index_loop posters = Ok st ->
  Forall2 (fun e z => py_int (key_prefix (fst e)) = Some z) posters (fst st).
Proof.
  unfold index_loop. intros Hloop.
  destruct (index_loop_keys posters [] (repeat 0 (List.length posters)) st)
    as [zs [Hzs Hst]]; [apply repeat_length | exact Hloop |].
  simpl in Hst. now rewrite Hst.
Qed.

Lemma shaped_zeros (rows nb : nat) :
  shaped rows nb (repeat (repeat fzero nb) rows).
Proof.
  split; [apply repeat_length|]. apply Forall_forall. intros row Hrow.
  apply repeat_spec in Hrow. subst. apply repeat_length.
Qed.

Lemma cell_set_nth (M : list (list F)) (r c r' c' : nat) (row : list F) (v : F) :
  nth_error M r = Some row -> (c < List.length row)%nat ->
  cell (set_nth r (set_nth c v row) M) r' c'
  = if (r' =? r)%nat && (c' =? c)%nat then Some v else cell M r' c'.
Proof.
  intros Hrow Hc. unfold cell.
  pose proof (@nth_error_set_nth) as Hset.
  rewrite Hset.
  destruct (r' =? r)%nat eqn:Er; simpl.
  - apply Nat.eqb_eq in Er. subst r'.
    assert (Hr : (r < List.length M)%nat) by (apply nth_error_Some; congruence).
    apply Nat.ltb_lt in Hr. rewrite Hr, Hset.
    destruct (c' =? c)%nat; [|now rewrite Hrow].
    apply Nat.ltb_lt in Hc. now rewrite Hc.
  - reflexivity.
Qed.

Lemma shaped_set_nth (rows nb : nat) (M : list (list F)) (r c : nat)
  (row : list F) (v : F) :
  shaped rows nb M -> nth_error M r = Some row ->
  shaped rows nb (set_nth r (set_nth c v row) M).
Proof.
  intros [Hlen Hrows] Hrow. split; [now rewrite set_nth_length|].
  apply Forall_set_nth; [|assumption].
  rewrite set_nth_length. rewrite Forall_forall in Hrows.
  apply Hrows. eapply nth_error_In; eauto.
Qed.

(** One store: it keeps the shape and changes the one cell it targets. *)
Lemma store_tag_cell (tags_definition : tags_t) (rows nb : nat) (key : string)
  (index : Z) (pt pt' : list (list F)) (tv : string * F) :
  py_int (key_prefix key) = Some index ->
  shaped rows nb pt ->
  store_tag tags_definition index pt tv = Ok pt' ->
  shaped rows nb pt'
  /\ exists r c, write_target tags_definition rows nb key (fst tv) = Some (r, c)
       /\ (r < rows)%nat /\ (c < nb)%nat
       /\ forall r' c', cell pt' r' c'
            = if (r' =? r)%nat && (c' =? c)%nat then Some (snd tv) else cell pt r' c'.
Proof.
  intros Hkey Hsh. unfold store_tag, write_target. rewrite Hkey.
  destruct (np_getitem pt index) as [row|] eqn:Erow; cbn [bind]; [|discriminate].
  apply np_getitem_inv in Erow as [r [Hr Hrow]].
  destruct (tag_lookup tags_definition (fst tv)) as [col|]; simpl; [|discriminate].
  unfold np_setitem at 1.
  destruct (py_index (List.length row) col) as [c|] eqn:Hc; cbn [bind]; [|discriminate].
  unfold np_setitem. rewrite Hr. intros [= <-].
  assert (Hrl : List.length row = nb).
  { destruct Hsh as [_ Hrows]. rewrite Forall_forall in Hrows.
    apply Hrows. eapply nth_error_In; eauto. }
  destruct Hsh as [Hlen Hrows]. rewrite Hlen in Hr. rewrite Hrl in Hc.
  split; [apply shaped_set_nth; [split|]; assumption|].
  exists r, c. rewrite Hr, Hc. split; [reflexivity|].
  split; [eapply py_index_lt; eauto|]. split; [eapply py_index_lt; eauto|].
  intros r' c'. apply cell_set_nth; [assumption|].
  rewrite Hrl. eapply py_index_lt; eauto.
Qed.

Lemma store_loop_cells (tags_definition : tags_t) (rows nb : nat) (key : string)
  (index : Z) (general : list (string * F)) (pt pt' : list (list F)) :
  py_int (key_prefix key) = Some index ->
  shaped rows nb pt ->
  for_each (store_tag tags_definition index) general pt = Ok pt' ->
  shaped rows nb pt'
  /\ forall r c,
       (forall tv, In tv general ->
          write_target tags_definition rows nb key (fst tv) <> Some (r, c)) ->
       cell pt' r c = cell pt r c.
Proof.
  intros Hkey. revert pt. induction general as [|tv general IH]; intros pt Hsh; simpl.
  - intros [= <-]. auto.
  - destruct (store_tag tags_definition index pt tv) as [pt1|] eqn:E1; cbn [bind];
      [|discriminate].
    destruct (store_tag_cell _ _ _ _ _ _ _ _ Hkey Hsh E1)
      as [Hsh1 [r0 [c0 [Ht [_ [_ Hcell]]]]]].
    intros Hloop. destruct (IH _ Hsh1 Hloop) as [Hsh' Hrest].
    split; [assumption|]. intros r c Hfree.
    rewrite Hrest by (intros tv' Htv'; apply Hfree; now right).
    rewrite Hcell.
    destruct ((r =? r0)%nat && (c =? c0)%nat) eqn:E; [|reflexivity].
    apply andb_true_iff in E as [Er Ec].
    apply Nat.eqb_eq in Er, Ec. subst.
    exfalso. exact (Hfree tv (or_introl eq_refl) Ht).
Qed.

Lemma tags_loop_cells (tags_definition : tags_t) (rows nb : nat)
  (posters : posters_t F) (pt pt' : list (list F)) :
  shaped rows nb pt ->
  for_each (tags_step tags_definition) posters pt = Ok pt' ->
  shaped rows nb pt'
  /\ forall r c,
       (forall e tv, In e posters -> In tv (snd e) ->
          write_target tags_definition rows nb (fst e) (fst tv) <> Some (r, c)) ->
       cell pt' r c = cell pt r c.
Proof.
  revert pt. induction posters as [|e posters IH]; intros pt Hsh; simpl.
  - intros [= <-]. auto.
  - unfold tags_step at 1. unfold key_index.
    destruct (py_int (key_prefix (fst e))) as [index|] eqn:Hkey; simpl; [|discriminate].
    destruct (for_each (store_tag tags_definition index) (snd e) pt) as [pt1|] eqn:E1;
      cbn [bind]; [|discriminate].
    destruct (store_loop_cells _ _ _ _ _ _ _ _ Hkey Hsh E1) as [Hsh1 Hc1].
    intros Hloop. destruct (IH _ Hsh1 Hloop) as [Hsh' Hrest].
    split; [assumption|]. intros r c Hfree.
    rewrite Hrest by (intros e' tv He' Htv; apply Hfree; [now right | assumption]).
    apply Hc1. intros tv Htv. apply Hfree; [now left | assumption].
Qed.

(** What a successful load has built. *)
Lemma load_posters_inv (tags_definition : tags_t) (posters : posters_t F)
  (g : globals F) :
  load_posters tags_definition posters = Ok g ->
  exists st m,
    index_loop posters = Ok st /\ py_max (fst st) = Ok m /\ 0 <= m + 1
    /\ for_each (tags_step tags_definition) posters
         (repeat (repeat fzero (List.length tags_definition)) (Z.to_nat (m + 1)))
       = Ok (poster_tags g)
    /\ index_posters g = fst st
    /\ nb_tags g = List.length tags_definition.
Proof.
  unfold load_posters.
  destruct (index_loop posters) as [st|] eqn:Est; cbn [bind]; [|discriminate].
  destruct (py_max (fst st)) as [m|] eqn:Emax; cbn [bind]; [|discriminate].
  unfold np_zeros. destruct (m + 1 <? 0) eqn:Em; cbn [bind]; [discriminate|].
  destruct (for_each _ posters _) as [pt|] eqn:Ept; cbn [bind]; [|discriminate].
  apply Z.ltb_ge in Em.
  intros [= <-]. exists st, m. simpl. repeat split; auto.
Qed.

(** X1.  What a successful load has built: [nb_tags] is the size of the
    tag table, [index_posters] holds the integers of the keys in the
    order of the input, the matrix has one row more than the largest of
    them, every row has [nb_tags] entries, and every member of
    [index_posters] is below the number of rows. *)
Theorem load_posters_shape (tags_definition : tags_t) (posters : posters_t F)
  (g : globals F) :
  load_posters tags_definition posters = Ok g ->
  nb_tags g = List.length tags_definition
  /\ Forall2 (fun e z => py_int (key_prefix (fst e)) = Some z)
             posters (index_posters g)
  /\ (exists m, py_max (index_posters g) = Ok m
                /\ Z.of_nat (List.length (poster_tags g)) = m + 1)
  /\ Forall (fun row => List.length row = nb_tags g) (poster_tags g)
  /\ (forall i, In i (index_posters g) ->
        i < Z.of_nat (List.length (poster_tags g))).
Proof.
  intros Hload.
  destruct (load_posters_inv _ _ _ Hload) as [st [m [Hst [Hm [Hm0 [Hpt [Hip Hnb]]]]]]].
  destruct (tags_loop_cells tags_definition (Z.to_nat (m + 1))
              (List.length tags_definition) posters _ _ (shaped_zeros _ _) Hpt)
    as [[Hrows Hcols] _].
  rewrite Hip, Hnb, Hrows. split; [reflexivity|].
  split; [now apply index_loop_result|].
  split; [exists m; split; [assumption | lia]|].
  split; [assumption|].
  intros i Hi. pose proof (py_max_ge _ _ Hm i Hi). lia.
Qed.

(** X2.  After a successful load, a cell that no (key, tag) pair of the
    input is stored in holds 0. *)
Theorem load_posters_unwritten_zero (tags_definition : tags_t)
  (posters : posters_t F) (g : globals F) (r c : nat) :
  load_posters tags_definition posters = Ok g ->
  (r < List.length (poster_tags g))%nat -> (c < nb_tags g)%nat ->
  (forall e tv, In e posters -> In tv (snd e) ->
     write_target tags_definition (List.length (poster_tags g)) (nb_tags g)
       (fst e) (fst tv) <> Some (r, c)) ->
  cell (poster_tags g) r c = Some fzero.
Proof.
  intros Hload Hr Hc Hfree.
  destruct (load_posters_inv _ _ _ Hload) as [st [m [Hst [Hm [Hm0 [Hpt [Hip Hnb]]]]]]].
  destruct (tags_loop_cells tags_definition (Z.to_nat (m + 1))
              (List.length tags_definition) posters _ _ (shaped_zeros _ _) Hpt)
    as [[Hrows Hcols] Hcells].
  rewrite Hrows, Hnb in *. rewrite Hcells by exact Hfree.
  unfold cell. rewrite (nth_error_repeat _ Hr). now apply nth_error_repeat.
Qed.

(** X3.  After a successful load, a cell holds the value of the last
    (tag, value) pair of the input that is stored in it: later pairs of
    the same entry and later entries that are stored elsewhere leave it. *)
Theorem load_posters_last_write (tags_definition : tags_t)
  (before after : posters_t F) (key tag : string) (value : F)
  (earlier later : list (string * F)) (g : globals F) (r c : nat) :
  load_posters tags_definition
    (before ++ (key, earlier ++ (tag, value) :: later) :: after) = Ok g ->
  write_target tags_definition (List.length (poster_tags g)) (nb_tags g) key tag
    = Some (r, c) ->
  (forall tv, In tv later ->
     write_target tags_definition (List.length (poster_tags g)) (nb_tags g)
       key (fst tv) <> Some (r, c)) ->
  (forall e tv, In e after -> In tv (snd e) ->
     write_target tags_definition (List.length (poster_tags g)) (nb_tags g)
       (fst e) (fst tv) <> Some (r, c)) ->
  cell (poster_tags g) r c = Some value.
Proof.
  intros Hload Ht Hlater Hafter.
  destruct (load_posters_inv _ _ _ Hload) as [st [m [Hst [Hm [Hm0 [Hpt [Hip Hnb]]]]]]].
  pose proof (shaped_zeros (Z.to_nat (m + 1)) (List.length tags_definition)) as Hsh0.
  destruct (tags_loop_cells _ _ _ _ _ _ Hsh0 Hpt) as [[Hrows _] _].
  rewrite Hrows, Hnb in *.
  set (rows := Z.to_nat (m + 1)) in *. set (nb := List.length tags_definition) in *.
  rewrite for_each_app in Hpt.
  destruct (for_each (tags_step tags_definition) before _) as [pt1|] eqn:E1;
    cbn [bind] in Hpt; [|discriminate].
  destruct (tags_loop_cells _ _ _ _ _ _ Hsh0 E1) as [Hsh1 _].
  simpl in Hpt. unfold tags_step at 1 in Hpt. unfold key_index in Hpt. simpl fst in Hpt.
  destruct (py_int (key_prefix key)) as [index|] eqn:Hkey; [|discriminate].
  simpl in Hpt. rewrite for_each_app in Hpt.
  destruct (for_each (store_tag tags_definition index) earlier pt1) as [pt2|] eqn:E2;
    cbn [bind] in Hpt; [|discriminate].
  destruct (store_loop_cells _ _ _ _ _ _ _ _ Hkey Hsh1 E2) as [Hsh2 _].
  simpl in Hpt.
  destruct (store_tag tags_definition index pt2 (tag, value)) as [pt3|] eqn:E3;
    cbn [bind] in Hpt; [|discriminate].
  destruct (store_tag_cell _ _ _ _ _ _ _ _ Hkey Hsh2 E3)
    as [Hsh3 [r0 [c0 [Ht0 [_ [_ Hcell]]]]]].
  simpl in Ht0. rewrite Ht in Ht0. injection Ht0 as <- <-.
  destruct (for_each (store_tag tags_definition index) later pt3) as [pt4|] eqn:E4;
    cbn [bind] in Hpt; [|discriminate].
  destruct (store_loop_cells _ _ _ _ _ _ _ _ Hkey Hsh3 E4) as [Hsh4 Hc4].
  destruct (tags_loop_cells _ _ _ _ _ _ Hsh4 Hpt) as [_ Hc5].
  rewrite Hc5 by exact Hafter. rewrite Hc4 by exact Hlater.
  rewrite Hcell. now rewrite !Nat.eqb_refl.
Qed.

Lemma store_loop_keyerror (tags_definition : tags_t) (index : Z)
  (general : list (string * F)) (pt : list (list F)) :
  for_each (store_tag tags_definition index) general pt = Err KeyError ->
  exists tv, In tv general /\ tag_lookup tags_definition (fst tv) = None.
Proof.
  revert pt. induction general as [|tv general IH]; intros pt; simpl; [discriminate|].
  destruct (store_tag tags_definition index pt tv) as [pt1|e] eqn:E1; cbn [bind].
  - intros Hloop. destruct (IH _ Hloop) as [tv' [Hin Hnone]]. exists tv'. auto.
  - intros [= ->]. exists tv. split; [now left|].
    unfold store_tag in E1.
    destruct (np_getitem pt index) as [row|e1] eqn:Erow; cbn [bind] in E1.
    2:{ injection E1 as E1. apply np_getitem_error in Erow as [?|?]; congruence. }
    destruct (tag_lookup tags_definition (fst tv)) as [col|]; [|reflexivity].
    cbn [bind of_option] in E1.
    destruct (np_setitem row col (snd tv)) as [row'|e2] eqn:Eset; cbn [bind] in E1.
    + apply np_setitem_error in E1 as [?|?]; discriminate.
    + injection E1 as E1. apply np_setitem_error in Eset as [?|?]; congruence.
Qed.

Lemma tags_loop_keyerror (tags_definition : tags_t) (posters : posters_t F)
  (pt : list (list F)) :
  Forall key_parses posters ->
  for_each (tags_step tags_definition) posters pt = Err KeyError ->
  exists e tv, In e posters /\ In tv (snd e)
               /\ tag_lookup tags_definition (fst tv) = None.
Proof.
  intros Hkeys. revert pt. induction Hkeys as [|e posters He Hkeys IH]; intros pt; simpl;
    [discriminate|].
  unfold tags_step at 1. destruct (key_index_ok e He) as [z ->]. cbn [bind].
  destruct (for_each (store_tag tags_definition z) (snd e) pt) as [pt1|err] eqn:E1;
    cbn [bind].
  - intros Hloop. destruct (IH _ Hloop) as [e' [tv [He' [Htv Hnone]]]].
    exists e', tv. auto.
  - intros [= ->]. destruct (store_loop_keyerror _ _ _ _ E1) as [tv [Htv Hnone]].
    exists e, tv. auto.
Qed.

Lemma load_posters_cases (tags_definition : tags_t) (posters : posters_t F) :
  (exists entry, In entry posters /\ py_int (key_prefix (fst entry)) = None)
  \/ (Forall key_parses posters
      /\ exists st, index_loop posters = Ok st
           /\ Forall2 (fun e z => py_int (key_prefix (fst e)) = Some z)
                       posters (fst st)).
Proof.
  destruct (keys_parse_or_not posters) as [Hall|Hbad]; [right | now left].
  split; [assumption|].
  destruct (index_loop_from posters (repeat 0 (List.length posters)) 0) as [Hok _];
    [lia | rewrite repeat_length; lia |].
  destruct (Hok Hall) as [st [Hst _]]. exists st. split; [exact Hst|].
  now apply index_loop_result.
Qed.

(** X4.  The loader fails with the ValueError of [max] exactly on the
    empty input. *)
Theorem load_posters_empty (tags_definition : tags_t) (posters : posters_t F) :
  load_posters tags_definition posters = Err ValueError_max <-> posters = [].
Proof.
  split.
  - intros Hload.
    destruct (load_posters_cases tags_definition posters)
      as [Hbad|[Hall [st [Hst Hkeys]]]].
    + pose proof (proj2 (load_posters_int_error tags_definition posters) Hbad).
      congruence.
    + unfold load_posters in Hload. rewrite Hst in Hload. cbn [bind] in Hload.
      destruct (py_max (fst st)) as [m|e0] eqn:Em; cbn [bind] in Hload.
      2:{ destruct (fst st); [now inversion Hkeys | simpl in Em; discriminate]. }
      exfalso.
      destruct (np_zeros (m + 1) (List.length tags_definition))
        as [zeros|e1] eqn:Ez; cbn [bind] in Hload.
      2:{ unfold np_zeros in Ez. destruct (_ <? 0); congruence. }
      destruct (for_each _ _ zeros) as [pt|e2] eqn:Ept; cbn [bind] in Hload;
        [discriminate|].
      injection Hload as ->.
      destruct (tags_loop_error _ _ _ _ Hall Ept) as [?|[?|?]]; discriminate.
  - intros ->. reflexivity.
Qed.

(** X5.  A KeyError of the loader means that some tag of the input is
    absent from the tag table. *)
Theorem load_posters_key_error (tags_definition : tags_t) (posters : posters_t F) :
  load_posters tags_definition posters = Err KeyError ->
  exists e tv, In e posters /\ In tv (snd e)
               /\ tag_lookup tags_definition (fst tv) = None.
Proof.
  intros Hload.
  destruct (load_posters_cases tags_definition posters)
    as [Hbad|[Hall [st [Hst Hkeys]]]].
  - pose proof (proj2 (load_posters_int_error tags_definition posters) Hbad).
    congruence.
  - unfold load_posters in Hload. rewrite Hst in Hload. cbn [bind] in Hload.
    destruct (py_max (fst st)) as [m|e0] eqn:Em; cbn [bind] in Hload.
    2:{ destruct (fst st); simpl in Em; congruence. }
    destruct (np_zeros (m + 1) (List.length tags_definition))
      as [zeros|e1] eqn:Ez; cbn [bind] in Hload.
    2:{ unfold np_zeros in Ez. destruct (_ <? 0); congruence. }
    destruct (for_each _ _ zeros) as [pt|e2] eqn:Ept; cbn [bind] in Hload;
      [discriminate|].
    injection Hload as ->. eapply tags_loop_keyerror; eauto.
Qed.

End LoaderFacts.

(** *** Keys *)

Lemma list_ascii_of_string_app (s t : string) :
  list_ascii_of_string (s ++ t) = list_ascii_of_string s ++ list_ascii_of_string t.
Proof. induction s as [|c s IH]; simpl; congruence. Qed.

Lemma list_ascii_length (s : string) :
  List.length (list_ascii_of_string s) = String.length s.
Proof. induction s as [|c s IH]; simpl; congruence. Qed.

Lemma key_prefix_append (s suffix : string) :
  String.length suffix = 4%nat ->
  key_prefix (s ++ suffix) = list_ascii_of_string s.
Proof.
  intros Hlen. unfold key_prefix, py_slice_to.
  rewrite list_ascii_of_string_app, length_app, !list_ascii_length, Hlen.
  replace (Z.of_nat (String.length s + 4) - 4) with (Z.of_nat (String.length s)) by lia.
  rewrite (proj2 (Z.ltb_ge _ _)) by apply Nat2Z.is_nonneg.
  rewrite Z.min_l by lia. rewrite Nat2Z.id.
  rewrite <- (list_ascii_length s), firstn_app, firstn_all, Nat.sub_diag.
  simpl. apply app_nil_r.
Qed.

(** X7.  The last four characters of a key are dropped whatever they are:
    the row of the key [s ++ suffix] is [int(s)]. *)
Theorem key_suffix_dropped (s suffix : string) :
  String.length suffix = 4%nat ->
  key_index (s ++ suffix) = int_of_string s.
Proof.
  intros Hlen. unfold key_index, int_of_string.
  now rewrite key_prefix_append.
Qed.

(** X8.  A key of fewer than three characters has an empty prefix and is
    rejected by [int]. *)
Theorem short_key_rejected (key : string) :
  (String.length key <= 2)%nat ->
  key_index key = Err ValueError_int.
Proof.
  intros Hlen. unfold key_index, key_prefix, py_slice_to.
  rewrite list_ascii_length.
  rewrite (proj2 (Z.ltb_lt _ _)) by lia.
  rewrite Z.max_l by lia. reflexivity.
Qed.

(** ** The engine: shape and content of the result *)

Section EngineFacts.
Context {F : Type} `{Arith F}.

Lemma In_set_nth {A : Type} (n : nat) (x v : A) (l : list A) :
  In v (set_nth n x l) -> v = x \/ In v l.
Proof.
  revert n. induction l as [|y l IH]; intros [|n]; simpl; auto.
  - intros [<-|Hv]; auto.
  - intros [<-|Hv]; auto. destruct (IH _ Hv); auto.
Qed.

Lemma morphing_result_length (g : globals F) (a b subdiv : Z) (m : list Z) :
  morphing g a b subdiv = Ok m ->
  1 <= subdiv /\ Z.of_nat (List.length m) = subdiv + 1.
Proof.
  intros Hm.
  destruct (morphing_inv _ _ _ _ _ Hm) as [L [HL Hloop]].
  destruct (setup_inv _ _ _ _ _ HL) as [Va [Vb Hk]].
  destruct (setup_ok g a b subdiv Va Vb Hk) as [L' [HL' [Hinit _]]].
  assert (L' = L) by congruence. subst L'.
  split; [assumption|].
  apply (for_each_invariant (fun m => Z.of_nat (List.length m) = subdiv + 1)
           _ _ (fun m0 i m1 _ Hlen Hv =>
                  eq_trans (f_equal Z.of_nat (visit_length _ _ _ _ _ _ _ _ Hv)) Hlen)
           _ _) in Hloop; [assumption|].
  rewrite Hinit. simpl. rewrite length_app, repeat_length. simpl. lia.
Qed.

(** X9.  In every arithmetic, a morphism that [morphing] returns has
    [subdiv + 1] entries, and [subdiv] is at least 1. *)
Theorem morphing_length (g : globals F) (a b subdiv : Z) (m : list Z) :
  morphing g a b subdiv = Ok m ->
  1 <= subdiv /\ Z.of_nat (List.length m) = subdiv + 1.
Proof. apply morphing_result_length. Qed.

(** X10.  In every arithmetic, every entry of a returned morphism is [a],
    [b], 0, or a row of the corpus that passes the guards of lines 41 and
    45: it is in [index_posters], differs from [a] and [b], and its
    projection is inside the band. *)
Theorem morphing_entries (g : globals F) (a b subdiv : Z) (m : list Z) :
  morphing g a b subdiv = Ok m ->
  exists L, setup g a b subdiv = Ok L
    /\ forall v, In v m ->
         v = a \/ v = b \/ v = 0
         \/ (0 <= v < Z.of_nat (List.length (poster_tags g))
             /\ eligible g a b L v = true).
Proof.
  intros Hm.
  destruct (morphing_inv _ _ _ _ _ Hm) as [L [HL Hloop]].
  exists L. split; [assumption|].
  destruct (setup_inv _ _ _ _ _ HL) as [Va [Vb Hk]].
  destruct (setup_ok g a b subdiv Va Vb Hk) as [L' [HL' [Hinit _]]].
  assert (L' = L) by congruence. subst L'.
  pose (P := fun m : list Z => forall v, In v m ->
         v = a \/ v = b \/ v = 0
         \/ (0 <= v < Z.of_nat (List.length (poster_tags g))
             /\ eligible g a b L v = true)).
  apply (for_each_invariant P) in Hloop; [exact Hloop| |].
  - intros m0 i m1 Hi HP Hv. apply in_range in Hi.
    destruct (visit_inv _ _ _ _ _ _ _ _ Hv) as [->|[Hel [s [p [_ [_ ->]]]]]];
      [assumption|].
    intros v Hin. apply In_set_nth in Hin as [->|Hin]; auto.
  - intros v Hin. rewrite Hinit in Hin. destruct Hin as [<-|Hin]; auto.
    apply in_app_or in Hin as [Hin|[<-|[]]]; auto.
    apply repeat_spec in Hin. auto.
Qed.

(** X14.  In every arithmetic, every position of a returned morphism
    holds what lines 35-37 put there ([a], 0 or [b]), or an eligible row
    that is stored where its slot index of line 47 points, as a
    subscript of the morphism. *)
Theorem morphing_positions (g : globals F) (a b subdiv : Z) (m : list Z) :
  morphing g a b subdiv = Ok m ->
  exists L, setup g a b subdiv = Ok L
    /\ forall p v, nth_error m p = Some v ->
         nth_error (a :: repeat 0 (Z.to_nat (subdiv - 1)) ++ [b]) p = Some v
         \/ (0 <= v < Z.of_nat (List.length (poster_tags g))
             /\ eligible g a b L v = true
             /\ exists s, slot_of g a subdiv L v = Ok s
                  /\ py_index (Z.to_nat (subdiv + 1)) s = Some p).
Proof.
  intros Hm.
  destruct (morphing_inv _ _ _ _ _ Hm) as [L [HL Hloop]].
  exists L. split; [assumption|].
  destruct (setup_inv _ _ _ _ _ HL) as [Va [Vb Hk]].
  destruct (setup_ok g a b subdiv Va Vb Hk) as [L' [HL' [Hinit _]]].
  assert (L' = L) by congruence. subst L'.
  set (init := a :: repeat 0 (Z.to_nat (subdiv - 1)) ++ [b]) in *.
  pose (P := fun m : list Z =>
    List.length m = Z.to_nat (subdiv + 1)
    /\ forall p v, nth_error m p = Some v ->
         nth_error init p = Some v
         \/ (0 <= v < Z.of_nat (List.length (poster_tags g))
             /\ eligible g a b L v = true
             /\ exists s, slot_of g a subdiv L v = Ok s
                  /\ py_index (Z.to_nat (subdiv + 1)) s = Some p)).
  enough (HP : P m) by apply HP.
  eapply (for_each_invariant P); [| |exact Hloop].
  - intros m0 i m1 Hi [Hlen HP] Hv. apply in_range in Hi.
    destruct (visit_inv _ _ _ _ _ _ _ _ Hv) as [->|[Hel [s [q [Hs [Hq ->]]]]]];
      [split; assumption|].
    split; [now rewrite set_nth_length|].
    intros p v. rewrite nth_error_set_nth.
    destruct (p =? q)%nat eqn:Epq; [|apply HP].
    apply Nat.eqb_eq in Epq. subst q.
    destruct (p <? List.length m0)%nat; [|discriminate].
    intros [= <-]. right. split; [assumption|]. split; [assumption|].
    exists s. split; [assumption|]. now rewrite <- Hlen.
  - rewrite Hinit. split.
    + unfold init. simpl. rewrite length_app, repeat_length. simpl. lia.
    + intros p v Hv. now left.
Qed.

End EngineFacts.

(** ** Binary64: equal vectors, and the symmetry of [distance] *)

Lemma is_finite_spec (x : float) :
  PrimFloat.is_finite x = true ->
  (exists s, Prim2SF x = S754_zero s) \/ (exists s m e, Prim2SF x = S754_finite s m e).
Proof.
  unfold PrimFloat.is_finite, PrimFloat.is_nan, PrimFloat.is_infinity.
  rewrite !eqb_spec, abs_spec.
  destruct (Prim2SF x) as [s|s| |s m e]; eauto.
  - destruct s; discriminate.
  - discriminate.
Qed.

Lemma sub_self_finite (x : float) :
  PrimFloat.is_finite x = true -> (x - x)%float = 0%float.
Proof.
  intros Hx. apply Prim2SF_inj. rewrite sub_spec, Prim2SF_zero.
  destruct (is_finite_spec x Hx) as [[s ->]|[s [m [e ->]]]].
  - now destruct s.
  - unfold SF64sub, SFsub. rewrite Z.min_id. unfold shl_align.
    rewrite Z.sub_diag. reflexivity.
Qed.

Lemma vsub_self_finite (v : list float) :
  Forall (fun x => PrimFloat.is_finite x = true) v ->
  vsub v v = repeat 0%float (List.length v).
Proof.
  induction 1 as [|x v Hx Hv IH]; [reflexivity|].
  unfold vsub in *. cbn [map2 List.length repeat]. rewrite IH.
  f_equal. now apply sub_self_finite.
Qed.

Lemma np_dot_zeros (n : nat) :
  np_dot (repeat 0%float n) (repeat 0%float n) = 0%float.
Proof.
  unfold np_dot. change (@fzero float Arith_float) with 0%float.
  induction n as [|n IH]; [reflexivity|].
  cbn [repeat combine fold_left fst snd].
  change (fadd 0%float (fmul 0%float 0%float)) with 0%float. exact IH.
Qed.

Lemma np_norm_zeros (n : nat) : np_norm (repeat 0%float n) = 0%float.
Proof. unfold np_norm. rewrite np_dot_zeros. reflexivity. Qed.

(** X13.  On binary64, when the rows of [a] and [b] hold the same vector
    of finite entries (in particular when [a = b]) the norm of the
    segment is 0, the band is empty and no slot is filled. *)
Theorem morphing_equal_vectors (g : globals float) (a b subdiv : Z) (v : list float) :
  np_getitem (poster_tags g) a = Ok v ->
  np_getitem (poster_tags g) b = Ok v ->
  Forall (fun x => PrimFloat.is_finite x = true) v ->
  1 <= subdiv ->
  morphing g a b subdiv = Ok (a :: repeat 0 (Z.to_nat (subdiv - 1)) ++ [b]).
Proof.
  intros Ha Hb Hv Hk.
  assert (Va : py_index (List.length (poster_tags g)) a <> None).
  { apply np_getitem_inv in Ha as [p [-> _]]. discriminate. }
  assert (Vb : py_index (List.length (poster_tags g)) b <> None).
  { apply np_getitem_inv in Hb as [p [-> _]]. discriminate. }
  destruct (setup_ok g a b subdiv Va Vb Hk) as [L [HL [Hm [_ Hw]]]].
  assert (Hnorm : seg_norm L = 0%float).
  { revert HL. unfold setup. rewrite Ha, Hb. cbn [bind].
    destruct (np_zeros _ _); cbn [bind]; [|discriminate].
    destruct (for_each _ _ _); cbn [bind]; [|discriminate].
    destruct (setitem _ 0 a); cbn [bind]; [|discriminate].
    destruct (setitem _ subdiv b); cbn [bind]; [|discriminate].
    intros [= <-]. cbn [seg_norm].
    rewrite vsub_self_finite by assumption. apply np_norm_zeros. }
  rewrite <- Hm. apply morphing_all_skipped; [assumption..|].
  intros i _. unfold eligible. rewrite Hw, Hnorm, in_band_zero_norm.
  apply andb_false_r.
Qed.

(** Swapping the operands of a subtraction changes the sign of the
    difference, or leaves a zero. *)
Lemma binary_round_aux_opp (M e : Z) (l : location) :
  binary_round_aux prec emax true M e l
  = SFopp (binary_round_aux prec emax false M e l).
Proof.
  unfold binary_round_aux.
  destruct (shr_fexp prec emax M e l) as [mrs' e'].
  destruct (shr_fexp prec emax _ e' loc_Exact) as [mrs'' e''].
  destruct (shr_m mrs''); try reflexivity.
  destruct (e'' <=? emax - prec); reflexivity.
Qed.

Lemma binary_normalize_opp (M e : Z) :
  M <> 0 ->
  binary_normalize prec emax (- M) e false
  = SFopp (binary_normalize prec emax M e false).
Proof.
  intros HM. destruct M as [|m|m]; [congruence| |]; cbn [Z.opp binary_normalize];
    unfold binary_round;
    destruct (shl_align m e _) as [mz ez]; rewrite binary_round_aux_opp.
  - reflexivity.
  - now destruct (binary_round_aux prec emax false (Z.pos mz) ez loc_Exact) as [[|]|[|]| |[|] ? ?].
Qed.

Lemma SFsub_swap (x y : spec_float) :
  SF64sub y x = SFopp (SF64sub x y)
  \/ exists s s', SF64sub y x = S754_zero s /\ SF64sub x y = S754_zero s'.
Proof.
  destruct x as [sx|sx| |sx mx ex], y as [sy|sy| |sy my ey];
    try solve [left; reflexivity];
    try solve [left; destruct sx; reflexivity];
    try solve [left; destruct sy; reflexivity];
    try solve [left; destruct sx, sy; reflexivity];
    try solve [right; destruct sx, sy; cbn; eauto].
  unfold SF64sub, SFsub. rewrite (Z.min_comm ey ex).
  set (ez := Z.min ex ey).
  set (A := cond_Zopp sx (Z.pos (fst (shl_align mx ex ez)))).
  set (B := cond_Zopp sy (Z.pos (fst (shl_align my ey ez)))).
  destruct (Z.eq_dec (A - B) 0) as [E|E].
  - right. replace (B - A) with 0 by lia. rewrite E. cbn. eauto.
  - left. replace (B - A) with (- (A - B)) by lia. now apply binary_normalize_opp.
Qed.

Lemma SFmul_opp_opp (t : spec_float) :
  SF64mul (SFopp t) (SFopp t) = SF64mul t t.
Proof. destruct t as [[|]|[|]| |[|] m e]; reflexivity. Qed.

Lemma square_diff_sym (x y : float) :
  ((x - y) * (x - y))%float = ((y - x) * (y - x))%float.
Proof.
  apply Prim2SF_inj. rewrite !mul_spec, !sub_spec.
  destruct (SFsub_swap (Prim2SF y) (Prim2SF x)) as [->|[s [s' [-> ->]]]].
  - now rewrite SFmul_opp_opp.
  - now destruct s, s'.
Qed.

Lemma np_dot_diff_sym (u v : list float) (acc : float) :
  fold_left (fun acc xy => fadd acc (fmul (fst xy) (snd xy)))
            (combine (vsub u v) (vsub u v)) acc
  = fold_left (fun acc xy => fadd acc (fmul (fst xy) (snd xy)))
              (combine (vsub v u) (vsub v u)) acc.
Proof.
  revert v acc. induction u as [|x u IH]; intros [|y v] acc; try reflexivity.
  unfold vsub in *. cbn [map2 combine fold_left fst snd fadd fmul fsub Arith_float].
  rewrite (square_diff_sym x y). apply IH.
Qed.

(** X15.  On binary64, [distance] does not depend on the order of its
    arguments. *)
Theorem distance_symmetric (u v : list float) : distance u v = distance v u.
Proof.
  unfold distance, np_norm, np_dot. now rewrite np_dot_diff_sym.
Qed.

(** ** The command, and the page window of views.py *)

Section Command.
Context {F : Type} `{Arith F}.

Lemma getitem_nonneg {A : Type} (l : list A) (i : Z) (x : A) :
  0 <= i < Z.of_nat (List.length l) ->
  nth_error l (Z.to_nat i) = Some x ->
  getitem l i = Ok x.
Proof.
  intros Hi Hx. unfold getitem. rewrite py_index_nonneg by assumption.
  now rewrite Hx.
Qed.

Lemma int_of_string_error (s : string) (e : exn) :
  int_of_string s = Err e -> e = ValueError_int.
Proof.
  unfold int_of_string. destruct (py_int _); simpl; congruence.
Qed.

(** X16.  With two arguments the command calls [morphing] with the default
    of four subdivisions: what it prints has five entries. *)
Theorem handle_two_arguments (g : globals F) (arg0 arg1 : string) (m : list Z) :
  handle g [arg0; arg1] = Ok m ->
  (exists a b, int_of_string arg0 = Ok a /\ int_of_string arg1 = Ok b
               /\ morphing g a b 4 = Ok m)
  /\ List.length m = 5%nat.
Proof.
  unfold handle. cbn [getitem List.length py_index Z.of_nat].
  change (getitem [arg0; arg1] 0) with (Ok (A := string) arg0).
  change (getitem [arg0; arg1] 1) with (Ok (A := string) arg1). cbn [bind].
  destruct (int_of_string arg0) as [a|]; cbn [bind]; [|discriminate].
  destruct (int_of_string arg1) as [b|]; cbn [bind]; [|discriminate].
  simpl. intros Hm. split; [exists a, b; auto|].
  destruct (morphing_result_length _ _ _ _ _ Hm) as [_ Hlen]. lia.
Qed.

(** X17.  With fewer than two arguments the command fails, with IndexError
    or with the ValueError of [int]; arguments after the third are
    ignored. *)
Theorem handle_arity (g : globals F) :
  (forall myargs, (List.length myargs < 2)%nat ->
     handle g myargs = Err IndexError \/ handle g myargs = Err ValueError_int)
  /\ (forall arg0 arg1 arg2 rest,
        handle g (arg0 :: arg1 :: arg2 :: rest) = handle g [arg0; arg1; arg2]).
Proof.
  split.
  - intros [|arg0 [|arg1 rest]] Hlen; simpl in Hlen; try lia.
    + left. reflexivity.
    + unfold handle. change (getitem [arg0] 0) with (Ok (A := string) arg0).
      cbn [bind]. destruct (int_of_string arg0) as [a|e] eqn:E; cbn [bind].
      * left. reflexivity.
      * right. apply int_of_string_error in E. now subst.
  - intros arg0 arg1 arg2 rest. unfold handle.
    rewrite !(getitem_nonneg (arg0 :: arg1 :: arg2 :: rest) 0 arg0),
            !(getitem_nonneg (arg0 :: arg1 :: arg2 :: rest) 1 arg1),
            !(getitem_nonneg (arg0 :: arg1 :: arg2 :: rest) 2 arg2)
      by (simpl List.length; first [lia | reflexivity]).
    replace (Z.of_nat (List.length (arg0 :: arg1 :: arg2 :: rest)) =? 2) with false
      by (symmetry; apply Z.eqb_neq; simpl List.length; lia).
    reflexivity.
Qed.

End Command.

(** pages *)

Lemma in_range_from (start stop x : Z) :
  In x (range_from start stop) <-> start <= x < stop.
Proof.
  unfold range_from. rewrite in_map_iff. split.
  - intros [i [<- Hi]]. apply in_seq in Hi. lia.
  - intros Hx. exists (Z.to_nat (x - start)). split; [lia|]. apply in_seq. lia.
Qed.

(** X20.  The page numbers offered are exactly the existing pages within
    two of the current one; they are at most five and do not repeat. *)
Theorem pages_window (number num_pages : Z) :
  (forall x, In x (pages number num_pages)
             <-> number - 2 <= x <= number + 2 /\ 1 <= x <= num_pages)
  /\ (List.length (pages number num_pages) <= 5)%nat
  /\ NoDup (pages number num_pages).
Proof.
  unfold pages. split; [|split].
  - intros x. rewrite filter_In, in_range_from, andb_true_iff. lia.
  - eapply Nat.le_trans; [apply filter_length_le|].
    unfold range_from. rewrite length_map, length_seq. lia.
  - apply NoDup_filter. unfold range_from.
    apply Injective_map_NoDup; [|apply seq_NoDup].
    intros i j Hij. lia.
Qed.

(** ** The further properties on runs *)

Lemma load_posters_shape_witness :
  load_posters Runs.tags two_posters = Ok two_corpus
  /\ nb_tags two_corpus = 2%nat
  /\ index_posters two_corpus = [5; 9]
  /\ List.length (poster_tags two_corpus) = 10%nat.
Proof.
  assert (Hload : load_posters Runs.tags two_posters = Ok two_corpus) by run.
  destruct (load_posters_shape Runs.tags two_posters two_corpus Hload)
    as [Hnb _].
  split; [exact Hload|]. split; [exact Hnb|]. split; reflexivity.
Defined.

Lemma load_posters_unwritten_zero_witness :
  load_posters Runs.tags two_posters = Ok two_corpus
  /\ cell (poster_tags two_corpus) 5 1 = Some 0%float.
Proof.
  assert (Hload : load_posters Runs.tags two_posters = Ok two_corpus) by run.
  split; [exact Hload|].
  apply (load_posters_unwritten_zero Runs.tags two_posters two_corpus 5 1 Hload).
  - simpl. lia.
  - simpl. lia.
  - intros e tv [<-|[<-|[]]] [<-|[]]; vm_compute; discriminate.
Defined.

Lemma load_posters_last_write_witness :
  load_posters Runs.tags rewritten_posters = Ok rewritten_corpus
  /\ cell (poster_tags rewritten_corpus) 5 0 = Some 0.25%float.
Proof.
  assert (Hload : load_posters Runs.tags rewritten_posters = Ok rewritten_corpus)
    by run.
  split; [exact Hload|].
  apply (load_posters_last_write Runs.tags []
           [("9.jpg"%string, [("robot"%string, 0.5%float)])]
           "5.jpg" "catgirl" 0.25%float
           [("catgirl"%string, 1.0%float)] [] rewritten_corpus 5 0 Hload).
  - reflexivity.
  - intros tv [].
  - intros e tv [<-|[]] [<-|[]]; vm_compute; discriminate.
Defined.

Lemma load_posters_key_error_witness :
  load_posters Runs.tags unknown_tag_posters = Err KeyError
  /\ exists e tv, In e unknown_tag_posters /\ In tv (snd e)
                  /\ tag_lookup Runs.tags (fst tv) = None.
Proof.
  assert (Hload : load_posters Runs.tags unknown_tag_posters = Err KeyError) by run.
  split; [exact Hload|].
  exact (load_posters_key_error Runs.tags unknown_tag_posters Hload).
Defined.

Lemma key_suffix_dropped_witness :
  String.length ".png" = 4%nat /\ key_index ("12" ++ ".png") = Ok 12.
Proof.
  split; [reflexivity|].
  rewrite (key_suffix_dropped "12" ".png" eq_refl). reflexivity.
Defined.

Lemma short_key_rejected_witness :
  (String.length "7" <= 2)%nat /\ key_index "7" = Err ValueError_int.
Proof.
  split; [simpl; lia|]. apply (short_key_rejected "7"). simpl. lia.
Defined.

Lemma morphing_length_witness :
  morphing nearer_corpus 1 2 2 = Ok [1; 4; 2]
  /\ 1 <= 2 /\ Z.of_nat (List.length [1; 4; 2]) = 2 + 1.
Proof.
  assert (Hm : morphing nearer_corpus 1 2 2 = Ok [1; 4; 2]) by run.
  split; [exact Hm|]. exact (morphing_length nearer_corpus 1 2 2 [1; 4; 2] Hm).
Defined.

Lemma morphing_entries_witness :
  morphing nearer_corpus 1 2 2 = Ok [1; 4; 2]
  /\ exists L, setup nearer_corpus 1 2 2 = Ok L
       /\ forall v, In v [1; 4; 2] ->
            v = 1 \/ v = 2 \/ v = 0
            \/ (0 <= v < Z.of_nat (List.length (poster_tags nearer_corpus))
                /\ eligible nearer_corpus 1 2 L v = true).
Proof.
  assert (Hm : morphing nearer_corpus 1 2 2 = Ok [1; 4; 2]) by run.
  split; [exact Hm|]. exact (morphing_entries nearer_corpus 1 2 2 [1; 4; 2] Hm).
Defined.

Lemma morphing_positions_witness :
  morphing nearer_corpus 1 2 2 = Ok [1; 4; 2]
  /\ exists L, setup nearer_corpus 1 2 2 = Ok L
       /\ (nth_error [1; 0; 2] 1 = Some 4
           \/ (0 <= 4 < Z.of_nat (List.length (poster_tags nearer_corpus))
               /\ eligible nearer_corpus 1 2 L 4 = true
               /\ exists s, slot_of nearer_corpus 1 2 L 4 = Ok s
                    /\ py_index (Z.to_nat (2 + 1)) s = Some 1%nat)).
Proof.
  assert (Hm : morphing nearer_corpus 1 2 2 = Ok [1; 4; 2]) by run.
  split; [exact Hm|].
  destruct (morphing_positions nearer_corpus 1 2 2 [1; 4; 2] Hm) as [L [HL HP]].
  exists L. split; [exact HL|]. exact (HP 1%nat 4 eq_refl).
Defined.

Lemma morphing_equal_vectors_witness :
  np_getitem (poster_tags zero_corpus) 1 = Ok [0%float]
  /\ np_getitem (poster_tags zero_corpus) 2 = Ok [0%float]
  /\ morphing zero_corpus 1 2 4 = Ok [1; 0; 0; 0; 2].
Proof.
  split; [reflexivity|]. split; [reflexivity|].
  apply (morphing_equal_vectors zero_corpus 1 2 4 [0%float]);
    [reflexivity | reflexivity | repeat constructor | lia].
Defined.

Lemma handle_two_arguments_witness :
  handle nearer_corpus ["1"%string; "2"%string] = Ok [1; 0; 4; 5; 2]
  /\ List.length [1; 0; 4; 5; 2] = 5%nat.
Proof.
  assert (Hh : handle nearer_corpus ["1"%string; "2"%string] = Ok [1; 0; 4; 5; 2])
    by run.
  split; [exact Hh|].
  exact (proj2 (handle_two_arguments nearer_corpus "1" "2" [1; 0; 4; 5; 2] Hh)).
Defined.

